(** * cxxhttp: session data and I/O control flow

    A shallow embedding of [cxxhttp::http::sessionData]
    (include/cxxhttp/http-session.h) and of [cxxhttp::http::flow]
    (include/cxxhttp/http-flow.h), together with the properties of the
    message framing state machine that the project documentation states.

    Layout:
    - strings, [std::size_t] and the case-insensitive header map;
    - the session record and the [sessionData] member functions;
    - the flow controller as explicit state passing over a [flow] record
      that also logs the asynchronous operations it issues;
    - lemmas on the header map, then the properties themselves. *)

From Stdlib Require Import ZArith List Bool Lia Ascii String DecimalString.
Import ListNotations.

Open Scope string_scope.
Open Scope Z_scope.

(** ** Strings and sizes *)

(** [std::size_t] on the 64 bit targets the library is built for. *)
Definition size_max : Z := 2 ^ 64.

Definition wrap (n : Z) : Z := n mod size_max.

(** [std::string::size]. *)
Definition size (s : string) : Z := Z.of_nat (String.length s).

(** [std::to_string(std::size_t)]. *)
Definition to_string (n : Z) : string :=
  NilZero.string_of_uint (N.to_uint (Z.to_N n)).

Definition CRLF : string := String "013" (String "010" EmptyString).

Definition newline : ascii := "010"%char.

Definition empty (s : string) : bool :=
  match s with EmptyString => true | String _ _ => false end.

(** ** The header map

    [headers] is declared in http-header.h as
    [std::map<std::string, std::string, caseInsensitiveLT>]; the map is kept
    as the sequence of its entries in iteration order. *)

(** Modelled from the spec: [std::tolower] in the "C" locale, as used by the
    comparator of http-header.h (header names compared ignoring case). *)
Definition tolower (c : ascii) : N :=
  let n := N_of_ascii c in
  if ((65 <=? n) && (n <=? 90))%N then (n + 32)%N else n.

(** Modelled from the spec: the comparator [caseInsensitiveLT] of
    http-header.h, a [std::lexicographical_compare] over lowered characters
    (header names compared ignoring case). *)
Fixpoint caseInsensitiveLT (a b : string) : bool :=
  match a, b with
  | _, EmptyString => false
  | EmptyString, String _ _ => true
  | String c1 a', String c2 b' =>
      if (tolower c1 <? tolower c2)%N then true
      else if (tolower c2 <? tolower c1)%N then false
      else caseInsensitiveLT a' b'
  end.

(** A key as the comparator sees it. *)
Fixpoint lowered (a : string) : list N :=
  match a with
  | EmptyString => []
  | String c r => tolower c :: lowered r
  end.

(** Key equivalence of an ordered container: neither key is less. *)
Definition sameKey (a b : string) : bool :=
  negb (caseInsensitiveLT a b) && negb (caseInsensitiveLT b a).

Definition headers : Type := list (string * string).

(** [std::map::find]: the stored entry whose key is equivalent to [k]. *)
Fixpoint entry (k : string) (m : headers) : option (string * string) :=
  match m with
  | [] => None
  | (k', v') :: r => if sameKey k k' then Some (k', v') else entry k r
  end.

Definition find (k : string) (m : headers) : option string :=
  option_map snd (entry k m).

(** [std::map::count]. *)
Definition count (k : string) (m : headers) : Z :=
  match entry k m with Some _ => 1 | None => 0 end.

(** Position of a new key in iteration order. *)
Fixpoint place (k v : string) (m : headers) : headers :=
  match m with
  | [] => [(k, v)]
  | (k', v') :: r =>
      if caseInsensitiveLT k k' then (k, v) :: m else (k', v') :: place k v r
  end.

(** [std::map::insert] of one entry: an existing key keeps its value. *)
Definition insert1 (e : string * string) (m : headers) : headers :=
  match entry (fst e) m with
  | Some _ => m
  | None => place (fst e) (snd e) m
  end.

Fixpoint replace (k v : string) (m : headers) : headers :=
  match m with
  | [] => []
  | (k', v') :: r =>
      if sameKey k k' then (k', v) :: r else (k', v') :: replace k v r
  end.

(** [m[k] = v]: [std::map::operator[]] followed by an assignment. *)
Definition assign (k v : string) (m : headers) : headers :=
  match entry k m with
  | Some _ => replace k v m
  | None => place k v m
  end.

(** The invariant of the container: keys strictly increasing. *)
Fixpoint sortedKeys (m : headers) : bool :=
  match m with
  | [] => true
  | (k, _) :: r =>
      match r with
      | [] => true
      | (k', _) :: _ => caseInsensitiveLT k k' && sortedKeys r
      end
  end.

(** A map built from an initializer list. *)
Definition mkHeaders (l : list (string * string)) : headers :=
  fold_left (fun m e => insert1 e m) l [].

(** ** The header parser, [parser<headers>] of http-header.h *)

Record parserHeaders : Type := mkParser {
  header : headers;
  lastHeader : string;
  complete : bool
}.

Definition parserOf (m : headers) : parserHeaders :=
  {| header := m; lastHeader := ""; complete := false |}.

Definition setHeader (m : headers) (p : parserHeaders) : parserHeaders :=
  {| header := m; lastHeader := lastHeader p; complete := complete p |}.

(** Modelled from the spec: [parser<headers>::insert(const headers &)] of
    http-header.h is missing. It merges a map into the parser's map with
    [std::map::insert], so a name that is already set keeps its value; this is
    the behaviour that the comments of http-session.h rely on (default
    headers are sent "unless overriden", outbound headers are taken over
    "iff they haven't been overridden"). *)
Definition insert (map : headers) (p : parserHeaders) : parserHeaders :=
  setHeader (fold_left (fun m e => insert1 e m) map (header p)) p.

(** Modelled from the spec: [parser<headers>::append] of http-header.h is
    missing (the "Vary-style append" of the header-map parser). The value is
    added to a comma separated list; a header that is not set yet, or is
    empty, is set to the value. *)
Definition appendValue (cur value : string) : string :=
  if empty cur then value else cur ++ "," ++ value.

Definition append (key value : string) (p : parserHeaders) : parserHeaders :=
  let cur := match find key (header p) with Some c => c | None => "" end in
  setHeader (assign key (appendValue cur value) (header p)) p.

(** Modelled from the spec: the string conversion of [parser<headers>]
    (http-header.h is missing): one "Name: value" line per entry, in
    iteration order, each terminated by CRLF. *)
Fixpoint headersString (m : headers) : string :=
  match m with
  | [] => ""
  | (k, v) :: r => k ++ ": " ++ v ++ CRLF ++ headersString r
  end.

Definition parserString (p : parserHeaders) : string :=
  headersString (header p).

(** ** Protocol values declared outside the session header *)

(** The status of a session, [enum status] in the source: what sort of
    communication to expect next. *)
Inductive enum_status : Type :=
| stRequest | stStatus | stHeader | stContent | stProcessing | stError
| stShutdown.

Definition status_eqb (a b : enum_status) : bool :=
  match a, b with
  | stRequest, stRequest | stStatus, stStatus | stHeader, stHeader
  | stContent, stContent | stProcessing, stProcessing | stError, stError
  | stShutdown, stShutdown => true
  | _, _ => false
  end.

(** Modelled from the spec: [http::version] (http-version.h is missing), a
    major and a minor number ordered lexicographically; versions at or above
    2.0 are the ones the flow rejects. *)
Record version : Type := mkVersion { majorVersion : Z; minorVersion : Z }.

Definition version_ge (a b : version) : bool :=
  (majorVersion a >? majorVersion b)
  || ((majorVersion a =? majorVersion b)
      && (minorVersion a >=? minorVersion b)).

(** Modelled from the spec: [requestLine] (http-request.h is missing), a
    parsed request line exposing a validity check and a version. *)
Record requestLine : Type := mkRequestLine {
  requestValid : bool;
  requestVersion : version;
  method : string;
  resource : string
}.

(** Modelled from the spec: [statusLine] (http-status.h is missing), a parsed
    status line exposing a validity check and a version. *)
Record statusLine : Type := mkStatusLine {
  statusValid : bool;
  statusVersion : version;
  code : Z;
  description : string
}.

(** The values left by the default constructors. *)
Definition noVersion : version := mkVersion 0 0.
Definition noRequestLine : requestLine := mkRequestLine false noVersion "" "".
Definition noStatusLine : statusLine := mkStatusLine false noVersion 0 "".

(** ** Session data, [class sessionData] *)

Record sessionData : Type := mkSessionData {
  status : enum_status;
  inboundRequest : requestLine;
  inboundStatus : statusLine;
  negotiated : headers;
  inbound : parserHeaders;
  outbound : parserHeaders;
  content : string;
  contentLength : Z;
  requests : Z;
  replies : Z;
  errors : Z;
  outboundQueue : list string;
  closeAfterSend : bool;
  writePending : bool;
  free : bool;
  isHEAD : bool;
  input : string
}.

(** Assignment to one member; the other members keep their values. *)
Definition set_status (v : enum_status) (s : sessionData) : sessionData :=
  mkSessionData v (inboundRequest s) (inboundStatus s) (negotiated s)
    (inbound s) (outbound s) (content s) (contentLength s) (requests s)
    (replies s) (errors s) (outboundQueue s) (closeAfterSend s)
    (writePending s) (free s) (isHEAD s) (input s).

Definition set_inboundRequest (v : requestLine) (s : sessionData)
    : sessionData :=
  mkSessionData (status s) v (inboundStatus s) (negotiated s) (inbound s)
    (outbound s) (content s) (contentLength s) (requests s) (replies s)
    (errors s) (outboundQueue s) (closeAfterSend s) (writePending s) (free s)
    (isHEAD s) (input s).

Definition set_inboundStatus (v : statusLine) (s : sessionData) : sessionData :=
  mkSessionData (status s) (inboundRequest s) v (negotiated s) (inbound s)
    (outbound s) (content s) (contentLength s) (requests s) (replies s)
    (errors s) (outboundQueue s) (closeAfterSend s) (writePending s) (free s)
    (isHEAD s) (input s).

Definition set_negotiated (v : headers) (s : sessionData) : sessionData :=
  mkSessionData (status s) (inboundRequest s) (inboundStatus s) v (inbound s)
    (outbound s) (content s) (contentLength s) (requests s) (replies s)
    (errors s) (outboundQueue s) (closeAfterSend s) (writePending s) (free s)
    (isHEAD s) (input s).

Definition set_inbound (v : parserHeaders) (s : sessionData) : sessionData :=
  mkSessionData (status s) (inboundRequest s) (inboundStatus s) (negotiated s)
    v (outbound s) (content s) (contentLength s) (requests s) (replies s)
    (errors s) (outboundQueue s) (closeAfterSend s) (writePending s) (free s)
    (isHEAD s) (input s).

Definition set_outbound (v : parserHeaders) (s : sessionData) : sessionData :=
  mkSessionData (status s) (inboundRequest s) (inboundStatus s) (negotiated s)
    (inbound s) v (content s) (contentLength s) (requests s) (replies s)
    (errors s) (outboundQueue s) (closeAfterSend s) (writePending s) (free s)
    (isHEAD s) (input s).

Definition set_content (v : string) (s : sessionData) : sessionData :=
  mkSessionData (status s) (inboundRequest s) (inboundStatus s) (negotiated s)
    (inbound s) (outbound s) v (contentLength s) (requests s) (replies s)
    (errors s) (outboundQueue s) (closeAfterSend s) (writePending s) (free s)
    (isHEAD s) (input s).

Definition set_contentLength (v : Z) (s : sessionData) : sessionData :=
  mkSessionData (status s) (inboundRequest s) (inboundStatus s) (negotiated s)
    (inbound s) (outbound s) (content s) v (requests s) (replies s) (errors s)
    (outboundQueue s) (closeAfterSend s) (writePending s) (free s) (isHEAD s)
    (input s).

Definition set_requests (v : Z) (s : sessionData) : sessionData :=
  mkSessionData (status s) (inboundRequest s) (inboundStatus s) (negotiated s)
    (inbound s) (outbound s) (content s) (contentLength s) v (replies s)
    (errors s) (outboundQueue s) (closeAfterSend s) (writePending s) (free s)
    (isHEAD s) (input s).

Definition set_replies (v : Z) (s : sessionData) : sessionData :=
  mkSessionData (status s) (inboundRequest s) (inboundStatus s) (negotiated s)
    (inbound s) (outbound s) (content s) (contentLength s) (requests s) v
    (errors s) (outboundQueue s) (closeAfterSend s) (writePending s) (free s)
    (isHEAD s) (input s).

Definition set_errors (v : Z) (s : sessionData) : sessionData :=
  mkSessionData (status s) (inboundRequest s) (inboundStatus s) (negotiated s)
    (inbound s) (outbound s) (content s) (contentLength s) (requests s)
    (replies s) v (outboundQueue s) (closeAfterSend s) (writePending s)
    (free s) (isHEAD s) (input s).

Definition set_outboundQueue (v : list string) (s : sessionData)
    : sessionData :=
  mkSessionData (status s) (inboundRequest s) (inboundStatus s) (negotiated s)
    (inbound s) (outbound s) (content s) (contentLength s) (requests s)
    (replies s) (errors s) v (closeAfterSend s) (writePending s) (free s)
    (isHEAD s) (input s).

Definition set_closeAfterSend (v : bool) (s : sessionData) : sessionData :=
  mkSessionData (status s) (inboundRequest s) (inboundStatus s) (negotiated s)
    (inbound s) (outbound s) (content s) (contentLength s) (requests s)
    (replies s) (errors s) (outboundQueue s) v (writePending s) (free s)
    (isHEAD s) (input s).

Definition set_writePending (v : bool) (s : sessionData) : sessionData :=
  mkSessionData (status s) (inboundRequest s) (inboundStatus s) (negotiated s)
    (inbound s) (outbound s) (content s) (contentLength s) (requests s)
    (replies s) (errors s) (outboundQueue s) (closeAfterSend s) v (free s)
    (isHEAD s) (input s).

Definition set_free (v : bool) (s : sessionData) : sessionData :=
  mkSessionData (status s) (inboundRequest s) (inboundStatus s) (negotiated s)
    (inbound s) (outbound s) (content s) (contentLength s) (requests s)
    (replies s) (errors s) (outboundQueue s) (closeAfterSend s)
    (writePending s) v (isHEAD s) (input s).

Definition set_isHEAD (v : bool) (s : sessionData) : sessionData :=
  mkSessionData (status s) (inboundRequest s) (inboundStatus s) (negotiated s)
    (inbound s) (outbound s) (content s) (contentLength s) (requests s)
    (replies s) (errors s) (outboundQueue s) (closeAfterSend s)
    (writePending s) (free s) v (input s).

Definition set_input (v : string) (s : sessionData) : sessionData :=
  mkSessionData (status s) (inboundRequest s) (inboundStatus s) (negotiated s)
    (inbound s) (outbound s) (content s) (contentLength s) (requests s)
    (replies s) (errors s) (outboundQueue s) (closeAfterSend s)
    (writePending s) (free s) (isHEAD s) v.
(** The constructor [sessionData(void)]. *)
Definition newSessionData : sessionData :=
  {| status := stRequest;
     inboundRequest := noRequestLine;
     inboundStatus := noStatusLine;
     negotiated := [];
     inbound := parserOf [];
     outbound := parserOf [];
     content := "";
     contentLength := 0;
     requests := 0;
     replies := 0;
     errors := 0;
     outboundQueue := [];
     closeAfterSend := false;
     writePending := false;
     free := false;
     isHEAD := false;
     input := "" |}.

(** ** Declarations the session uses from other headers *)

(** What http-session.h takes from the headers it includes: the library
    identifier of version.h, the string form of a status line, the assembled
    request line, the two line parsers, the header line parser, the
    negotiation function of negotiate.h, and the body and headers that
    [http::error] passes to [reply]. *)
Record collaborators : Type := mkCollaborators {
  identifier : string;
  statusLineString : Z -> string;
  assemble : string -> string -> string;
  parseRequestLine : string -> requestLine;
  parseStatusLine : string -> statusLine;
  absorb : string -> parserHeaders -> parserHeaders;
  negotiateValue : string -> string -> string;
  errorBody : sessionData -> Z -> string;
  errorHeaders : sessionData -> Z -> headers
}.

(** The request processor, the template parameter [requestProcessor] of
    [flow]. Every hook receives the session by reference; the two hooks that
    return the next status also return the session they leave behind. *)
Module processor.
Record t : Type := mk {
  start : sessionData -> sessionData;
  afterHeaders : sessionData -> sessionData * enum_status;
  handle : sessionData -> sessionData;
  afterProcessing : sessionData -> sessionData * enum_status;
  recycle : sessionData -> sessionData
}.
End processor.

(** ** Member functions of [sessionData] *)

(** [std::getline] on the input buffer: the characters before the first
    newline, which is extracted and dropped; everything, at end of input. *)
Fixpoint getline (buf : string) : string * string :=
  match buf with
  | EmptyString => ("", "")
  | String c r =>
      if Ascii.eqb c newline then ("", r)
      else let (l, rest) := getline r in (String c l, rest)
  end.

(** The first [n] characters of a buffer, and what is left after them. *)
Fixpoint take (n : nat) (buf : string) : string :=
  match n, buf with
  | S n', String c r => String c (take n' r)
  | _, _ => ""
  end.

Fixpoint drop (n : nat) (buf : string) : string :=
  match n, buf with
  | S n', String _ r => drop n' r
  | _, _ => buf
  end.

(** [queries]: replies plus requests, in [std::size_t]. *)
Definition queries (s : sessionData) : Z := wrap (replies s + requests s).

(** [remainingBytes]: an unsigned subtraction. *)
Definition remainingBytes (s : sessionData) : Z :=
  wrap (contentLength s - size (content s)).

(** [buffer]: a full line while a line or the headers are read, otherwise as
    much of the remaining body as the input holds. *)
Definition buffer (s : sessionData) : string * sessionData :=
  match status s with
  | stRequest | stStatus | stHeader =>
      let (l, rest) := getline (input s) in (l, set_input rest s)
  | stContent =>
      if remainingBytes s >? 0 then
        let n := Z.to_nat (Z.min (remainingBytes s) (size (input s))) in
        (take n (input s), set_input (drop n (input s)) s)
      else ("", s)
  | _ => ("", s)
  end.

(** The header negotiation map: input header names and the outbound header
    that carries the negotiated value. *)
Definition sendNegotiatedAs : headers := mkHeaders [("Accept", "Content-Type")].

(** The value of an inbound header as [negotiate] reads it: empty when the
    header was not sent. *)
Definition clientValue (inb : parserHeaders) (name : string) : string :=
  if count name (header inb) >? 0
  then match find name (header inb) with
       | Some c => c
       | None => ""
       end
  else "".

(** The value of the outbound Vary header, empty when it is not set. *)
Definition varyOf (s : sessionData) : string :=
  match find "Vary" (header (outbound s)) with
  | Some c => c
  | None => ""
  end.

Section Session.

Variable E : collaborators.

(** The default client headers, sent with every request unless overridden. *)
Definition defaultClientHeaders : headers :=
  mkHeaders [("User-Agent", identifier E)].

(** The headers [generateReply] sets by itself: Content-Length where a
    body is allowed or the request was a HEAD request, and Connection for
    an error status. *)
Definition autoHead (s : sessionData) (status : Z) (body : string)
    : parserHeaders :=
  let allowBody := (status >=? 200) && negb (isHEAD s) in
  let allowKeepAlive := status <? 400 in
  let head := parserOf [] in
  let head :=
    if allowBody || isHEAD s
    then insert (mkHeaders [("Content-Length", to_string (size body))]) head
    else head in
  if negb allowKeepAlive
  then insert (mkHeaders [("Connection", "close")]) head
  else head.

(** The header block of a reply, [head] in [generateReply]: the headers of
    the caller and then the outbound headers are inserted after those. *)
Definition replyHead (s : sessionData) (status : Z) (body : string)
    (hdr : headers) : parserHeaders :=
  let head := autoHead s status body in
  let head := insert hdr head in
  insert (header (outbound s)) head.

(** [generateReply]: status line, header block, an empty line, and the body
    where one is allowed. *)
Definition generateReply (s : sessionData) (status : Z) (body : string)
    (hdr : headers) : string :=
  let allowBody := (status >=? 200) && negb (isHEAD s) in
  let reply :=
    statusLineString E status ++ parserString (replyHead s status body hdr)
    ++ CRLF in
  if allowBody then reply ++ body else reply.

(** The value negotiated for one entry, given the inbound headers. *)
Definition negotiatedValue (inb : parserHeaders) (n : string * string)
    : string :=
  negotiateValue E (clientValue inb (fst n)) (snd n).

(** One round of the loop of [negotiate]. *)
Definition negotiateOne (acc : sessionData * bool) (n : string * string)
    : sessionData * bool :=
  let (s, badNegotiation) := acc in
  let cv := clientValue (inbound s) (fst n) in
  let v := negotiateValue E cv (snd n) in
  let s := set_outbound (append "Vary" (fst n) (outbound s)) s in
  let s := set_negotiated (assign (fst n) v (negotiated s)) s in
  let s :=
    match find (fst n) sendNegotiatedAs with
    | Some sendAs =>
        set_outbound (setHeader (assign sendAs v (header (outbound s)))
                                (outbound s)) s
    | None => s
    end in
  (s, badNegotiation || empty v).

(** [negotiate]: whether every negotiation gave a value, and the session. *)
Definition negotiate (negotiations : headers) (s : sessionData)
    : bool * sessionData :=
  let s := set_negotiated [] s in
  let (s, badNegotiation) := fold_left negotiateOne negotiations (s, false) in
  (negb badNegotiation, s).

(** [request]: queues a request message. *)
Definition requestHead (hdr : headers) : parserHeaders :=
  insert defaultClientHeaders (parserOf hdr).

Definition request (method resource : string) (hdr : headers)
    (body : string) (s : sessionData) : sessionData :=
  let s :=
    set_outboundQueue
      (outboundQueue s
       ++ [assemble E method resource ++ parserString (requestHead hdr)
           ++ CRLF ++ body]) s in
  let s := set_isHEAD (String.eqb method "HEAD") s in
  set_requests (wrap (requests s + 1)) s.

(** [reply]: queues the generated reply. *)
Definition reply (status : Z) (body : string) (hdr : headers)
    (s : sessionData) : sessionData :=
  let s :=
    set_outboundQueue (outboundQueue s ++ [generateReply s status body hdr])
                      s in
  let s := set_closeAfterSend (closeAfterSend s || (status >=? 400)) s in
  set_replies (wrap (replies s + 1)) s.

(** Modelled from the spec: [http::error(session).reply(status)] of
    http-error.h is missing; it enqueues a synthesized error reply with the
    given status through [reply]. *)
Definition errorReply (status : Z) (s : sessionData) : sessionData :=
  reply status (errorBody E s status) (errorHeaders E s status) s.

(** The message of the synthesized error reply. *)
Definition errorMessage (s : sessionData) (status : Z) : string :=
  generateReply s status (errorBody E s status) (errorHeaders E s status).

End Session.

(** ** The flow controller, [class flow] *)

Inductive connection : Type := inputConnection | outputConnection.

(** The operations the flow asks of its connections. *)
Inductive operation : Type :=
| async_read_until
| async_read (atLeast : Z)
| async_write (msg : string)
| shutdown (c : connection)
| close (c : connection).

(** A flow: the session it refers to, the operations issued so far (oldest
    first), the number of writes whose completion handler has not run yet,
    and what the connections do: whether the output is a connection of its
    own, whether [maybeShutdown] does anything for the connection type, and
    whether the last [close] of a teardown leaves an error code. *)
Record flow : Type := mkFlow {
  session : sessionData;
  issued : list operation;
  writesInFlight : nat;
  separateOutput : bool;
  canShutdown : bool;
  closeError : bool
}.

Definition onSession (g : sessionData -> sessionData) (f : flow) : flow :=
  mkFlow (g (session f)) (issued f) (writesInFlight f) (separateOutput f)
         (canShutdown f) (closeError f).

Definition issue (o : operation) (f : flow) : flow :=
  mkFlow (session f) (issued f ++ [o]) (writesInFlight f) (separateOutput f)
         (canShutdown f) (closeError f).

Definition asyncWrite (msg : string) (f : flow) : flow :=
  mkFlow (session f) (issued f ++ [async_write msg]) (S (writesInFlight f))
         (separateOutput f) (canShutdown f) (closeError f).

Definition writeDone (f : flow) : flow :=
  mkFlow (session f) (issued f) (pred (writesInFlight f)) (separateOutput f)
         (canShutdown f) (closeError f).

Definition newFlow (separate canShut closeErr : bool) : flow :=
  mkFlow newSessionData [] 0 separate canShut closeErr.

(** The messages handed to [async_write], oldest first. *)
Fixpoint written (ops : list operation) : list string :=
  match ops with
  | [] => []
  | async_write msg :: r => msg :: written r
  | _ :: r => written r
  end.

(** The reads among the issued operations. *)
Fixpoint reads (ops : list operation) : list operation :=
  match ops with
  | [] => []
  | async_read_until :: r => async_read_until :: reads r
  | async_read n :: r => async_read n :: reads r
  | _ :: r => reads r
  end.

Definition maybeShutdown (c : connection) (f : flow) : flow :=
  if canShutdown f then issue (shutdown c) f else f.

Definition limVersion : version := mkVersion 2 0.

(** What a completion handler is called for. *)
Inductive event : Type :=
| readCompleted (error : bool) (data : string)
| writeCompleted (error : bool)
| sendCalled
| replyCalled (status : Z) (body : string) (hdr : headers)
| requestCalled (method resource : string) (hdr : headers) (body : string).

Section Flow.

Variable E : collaborators.
Variable P : processor.t.

(** A hook that returns the next status: the session it leaves, with the
    status assigned. *)
Definition assignStatus (hook : sessionData -> sessionData * enum_status)
    (s : sessionData) : sessionData :=
  let (s', st) := hook s in set_status st s'.

Definition readLine (f : flow) : flow := issue async_read_until f.

Definition readRemainingContent (f : flow) : flow :=
  issue (async_read (remainingBytes (session f))) f.

(** [recycle]: makes the session reusable. *)
Definition recycle (f : flow) : flow :=
  if free (session f) then f
  else
    let f := onSession (processor.recycle P) f in
    let f := onSession (set_status stShutdown) f in
    let f := onSession (set_closeAfterSend false) f in
    let f := onSession (set_outboundQueue []) f in
    let f := maybeShutdown inputConnection f in
    let f := issue (close inputConnection) f in
    let f :=
      if separateOutput f
      then issue (close outputConnection) (maybeShutdown outputConnection f)
      else f in
    let f :=
      onSession (fun s => set_errors (if closeError f
                                      then wrap (errors s + 1)
                                      else errors s) s) f in
    let f := onSession (set_input "") f in
    onSession (set_free true) f.

(** [send]: sends the next message of the queue, if there is one and no
    message is in flight. *)
Definition send (f : flow) : flow :=
  if negb (status_eqb (status (session f)) stShutdown)
     && negb (writePending (session f))
  then
    match outboundQueue (session f) with
    | msg :: rest =>
        let f := onSession (set_writePending true) f in
        let f := asyncWrite msg f in
        onSession (set_outboundQueue rest) f
    | [] => if closeAfterSend (session f) then recycle f else f
    end
  else f.

Definition handleStart (f : flow) : flow :=
  let f :=
    match status (session f) with
    | stRequest | stStatus => readLine f
    | stShutdown => recycle f
    | _ => f
    end in
  send f.

Definition start (f : flow) : flow :=
  handleStart (onSession (processor.start P) f).

(** The first part of [handleRead]: the line just read is taken as request
    line, status line or header line. Returns the local [version]. *)
Definition absorbLine (f : flow) : version * flow :=
  match status (session f) with
  | stRequest =>
      let (line, s) := buffer (session f) in
      let s := set_inboundRequest (parseRequestLine E line) s in
      let s :=
        set_status (if requestValid (inboundRequest s)
                    then stHeader else stError) s in
      (requestVersion (inboundRequest s), onSession (fun _ => s) f)
  | stStatus =>
      let (line, s) := buffer (session f) in
      let s := set_inboundStatus (parseStatusLine E line) s in
      let s :=
        set_status (if statusValid (inboundStatus s)
                    then stHeader else stError) s in
      (statusVersion (inboundStatus s), onSession (fun _ => s) f)
  | stHeader =>
      let (line, s) := buffer (session f) in
      let s := set_inbound (absorb E line (inbound s)) s in
      let f := onSession (fun _ => s) f in
      if complete (inbound s) then
        let f := onSession (assignStatus (processor.afterHeaders P)) f in
        let f := send f in
        (noVersion, onSession (set_content "") f)
      else (noVersion, f)
  | _ => (noVersion, f)
  end.

(** Requests and replies with a major version over 1.x are rejected. *)
Definition rejectVersion (wasStart : bool) (v : version) (f : flow) : flow :=
  if wasStart && negb (status_eqb (status (session f)) stError)
     && version_ge v limVersion
  then onSession (set_status stError) f
  else f.

(** The edge from a request line to an error is answered with a reply. *)
Definition answerLine (wasRequest wasStart : bool) (v : version) (f : flow)
    : flow :=
  if wasStart && status_eqb (status (session f)) stHeader
  then onSession (set_inbound (parserOf [])) f
  else if wasRequest && status_eqb (status (session f)) stError
  then
    let f :=
      onSession (errorReply E (if version_ge v limVersion then 505 else 400))
                f in
    let f := send f in
    onSession (set_status stProcessing) f
  else f.

(** What is read next, or the request is processed. *)
Definition continueRead (f : flow) : flow :=
  match status (session f) with
  | stHeader => readLine f
  | stContent =>
      let (chunk, s) := buffer (session f) in
      let s := set_content (content s ++ chunk) s in
      let f := onSession (fun _ => s) f in
      if remainingBytes (session f) =? 0 then
        let f := onSession (set_status stProcessing) f in
        let f := onSession (processor.handle P) f in
        let f := onSession (assignStatus (processor.afterProcessing P)) f in
        handleStart f
      else readRemainingContent f
  | _ => f
  end.

(** [handleRead]: the callback after more data has been read. *)
Definition handleRead (error : bool) (length : Z) (f : flow) : flow :=
  if status_eqb (status (session f)) stShutdown then f
  else
    let f := if error then onSession (set_status stError) f else f in
    let wasRequest := status_eqb (status (session f)) stRequest in
    let wasStart := wasRequest || status_eqb (status (session f)) stStatus in
    let (v, f) := absorbLine f in
    let f := rejectVersion wasStart v f in
    let f := answerLine wasRequest wasStart v f in
    let f := continueRead f in
    if status_eqb (status (session f)) stError then recycle f else f.

(** [handleWrite]: the callback after a write has finished. *)
Definition handleWrite (error : bool) (f : flow) : flow :=
  let f := onSession (set_writePending false) f in
  let f :=
    if negb error then
      let f :=
        if status_eqb (status (session f)) stProcessing
        then onSession (assignStatus (processor.afterProcessing P)) f
        else f in
      send f
    else f in
  if error || status_eqb (status (session f)) stShutdown
  then recycle f
  else f.

(** The input buffer is filled by the read operation before its handler
    runs; a write handler runs for a write that is in flight. Calls of the
    public [send], [reply] and [request] may come in between. *)
Definition deliver (e : event) (f : flow) : option flow :=
  match e with
  | readCompleted error data =>
      Some (handleRead error (size data)
              (onSession (fun s => set_input (input s ++ data) s) f))
  | writeCompleted error =>
      match writesInFlight f with
      | O => None
      | S _ => Some (handleWrite error (writeDone f))
      end
  | sendCalled => Some (send f)
  | replyCalled status body hdr => Some (onSession (reply E status body hdr) f)
  | requestCalled method resource hdr body =>
      Some (onSession (request E method resource hdr body) f)
  end.

Fixpoint run (es : list event) (f : flow) : option flow :=
  match es with
  | [] => Some f
  | e :: r => match deliver e f with Some f' => run r f' | None => None end
  end.

(** The states of a flow that was started on a new session. *)
Inductive reachable : flow -> Prop :=
| reachable_start separate canShut closeErr :
    reachable (start (newFlow separate canShut closeErr))
| reachable_step e f f' :
    reachable f -> deliver e f = Some f' -> reachable f'.

End Flow.

(** ** A small server, to run the definitions on concrete inputs

    Simple stand-ins for the declarations of the other headers and a
    processor that answers every request with "ok". *)

Module sample.

Fixpoint splitOn (sep : ascii) (s : string) : list string :=
  match s with
  | EmptyString => [""]
  | String c r =>
      if Ascii.eqb c sep then "" :: splitOn sep r
      else match splitOn sep r with
           | w :: ws => String c w :: ws
           | [] => [String c ""]
           end
  end.

Fixpoint stripCR (s : string) : string :=
  match s with
  | EmptyString => ""
  | String c r =>
      match r with
      | EmptyString => if Ascii.eqb c "013" then "" else s
      | _ => String c (stripCR r)
      end
  end.

Definition digit (c : ascii) : option Z :=
  let n := Z.of_N (N_of_ascii c) in
  if (48 <=? n) && (n <=? 57) then Some (n - 48) else None.

Fixpoint decimalFrom (acc : Z) (s : string) : option Z :=
  match s with
  | EmptyString => Some acc
  | String c r =>
      match digit c with
      | Some d => decimalFrom (10 * acc + d) r
      | None => None
      end
  end.

Definition decimal (s : string) : option Z :=
  if empty s then None else decimalFrom 0 s.

Definition parseVersion (s : string) : option version :=
  match s with
  | String "H" (String "T" (String "T" (String "P" (String "/"
      (String a (String "." (String b EmptyString))))))) =>
      match digit a, digit b with
      | Some x, Some y => Some (mkVersion x y)
      | _, _ => None
      end
  | _ => None
  end.

Definition parseRequestLine (line : string) : requestLine :=
  match splitOn " " (stripCR line) with
  | [m; r; v] =>
      match parseVersion v with
      | Some ver =>
          mkRequestLine (negb (empty m) && (majorVersion ver >? 0)) ver m r
      | None => noRequestLine
      end
  | _ => noRequestLine
  end.

Definition parseStatusLine (line : string) : statusLine :=
  match splitOn " " (stripCR line) with
  | v :: c :: d =>
      match parseVersion v, decimal c with
      | Some ver, Some n =>
          mkStatusLine ((100 <=? n) && (n <? 600)) ver n
                       (String.concat " " d)
      | _, _ => noStatusLine
      end
  | _ => noStatusLine
  end.

Definition statusDescription (st : Z) : string :=
  if st =? 200 then "OK"
  else if st =? 101 then "Switching Protocols"
  else if st =? 400 then "Bad Request"
  else if st =? 404 then "Not Found"
  else if st =? 505 then "HTTP Version Not Supported"
  else "Other Status".

Definition statusLineString (st : Z) : string :=
  "HTTP/1.1 " ++ to_string st ++ " " ++ statusDescription st ++ CRLF.

Definition assemble (method resource : string) : string :=
  method ++ " " ++ resource ++ " HTTP/1.1" ++ CRLF.

Fixpoint skipSpaces (s : string) : string :=
  match s with
  | String " " r => skipSpaces r
  | _ => s
  end.

Definition absorb (line : string) (p : parserHeaders) : parserHeaders :=
  let l := stripCR line in
  if empty l then mkParser (header p) (lastHeader p) true
  else
    match splitOn ":" l with
    | k :: v :: vs =>
        let p' := append k (skipSpaces (String.concat ":" (v :: vs))) p in
        mkParser (header p') k (complete p')
    | _ => mkParser (header p) (lastHeader p) true
    end.

Definition negotiateValue (client offers : string) : string :=
  let l := splitOn "," offers in
  if empty client then hd "" l
  else if existsb (String.eqb client) l then client
  else "".

Definition E : collaborators :=
  mkCollaborators "cxxhttp/sample" statusLineString assemble
    parseRequestLine parseStatusLine absorb negotiateValue
    (fun _ st => statusDescription st)
    (fun _ _ => mkHeaders [("Content-Type", "text/plain")]).

(** A server: the body length is taken from Content-Length, every request
    is answered with "ok", and the connection is kept for the next one. *)
Definition P : processor.t :=
  {| processor.start := fun s => s;
     processor.afterHeaders := fun s =>
       (set_contentLength
          (match find "Content-Length" (header (inbound s)) with
           | Some v => match decimal v with
                       | Some n => wrap n
                       | None => 0
                       end
           | None => 0
           end) s, stContent);
     processor.handle := fun s => reply E 200 "ok" [] s;
     processor.afterProcessing := fun s => (s, stRequest);
     processor.recycle := fun s => s |}.

Definition LF : string := String newline "".

Definition getRequest : string :=
  "GET / HTTP/1.1" ++ CRLF ++ "Host: x" ++ CRLF ++ CRLF.

Definition postRequest : string :=
  "POST /form HTTP/1.1" ++ CRLF ++ "Content-Length: 5" ++ CRLF ++ CRLF
  ++ "hello".

End sample.

(** ** What the flow expects of a processor *)

(** A hook keeps an observation of the session. *)
Definition keeps {A : Type} (obs : sessionData -> A)
    (hook : sessionData -> sessionData) : Prop :=
  forall s, obs (hook s) = obs s.

(** The hooks leave the write flag to the flow. *)
Definition keepsWritePending (P : processor.t) : Prop :=
  keeps writePending (processor.start P)
  /\ keeps writePending (fun s => fst (processor.afterHeaders P s))
  /\ keeps writePending (processor.handle P)
  /\ keeps writePending (fun s => fst (processor.afterProcessing P s))
  /\ keeps writePending (processor.recycle P).

(** After a write the processor goes on: it leaves the queue alone and does
    not shut the session down. *)
Definition goesOn (P : processor.t) : Prop :=
  forall s,
    outboundQueue (fst (processor.afterProcessing P s)) = outboundQueue s
    /\ writePending (fst (processor.afterProcessing P s)) = writePending s
    /\ snd (processor.afterProcessing P s) <> stShutdown.

(** The body and its expected length. *)
Definition body (s : sessionData) : string * Z := (content s, contentLength s).

(** The hooks leave the body buffer to the flow; the hook that runs after
    the headers sets the content length, to a value of [std::size_t]. *)
Definition keepsBody (P : processor.t) : Prop :=
  keeps body (processor.start P)
  /\ keeps body (processor.handle P)
  /\ keeps body (fun s => fst (processor.afterProcessing P s))
  /\ keeps body (processor.recycle P)
  /\ forall s, 0 <= contentLength (fst (processor.afterHeaders P s)) < size_max.

(** No write is in flight unless the write flag is set, and then it is one. *)
Definition oneWrite (f : flow) : Prop :=
  writesInFlight f = if writePending (session f) then 1%nat else 0%nat.

(** The body buffer is within the expected length. *)
Definition bodyWithin (s : sessionData) : Prop :=
  0 <= contentLength s < size_max /\ size (content s) <= contentLength s.

(** A session with nothing to send and nothing in flight. *)
Definition idle (f : flow) : Prop :=
  outboundQueue (session f) = [] /\ writePending (session f) = false
  /\ writesInFlight f = 0%nat /\ status (session f) <> stShutdown.


(** ** Proof automation *)

(** Projections of the flow and session records after an assignment. *)
Ltac flow_cbn :=
  cbn [session issued writesInFlight separateOutput canShutdown closeError
       onSession issue asyncWrite writeDone readLine readRemainingContent
       status inboundRequest inboundStatus negotiated inbound outbound
       content contentLength requests replies errors outboundQueue
       closeAfterSend writePending free isHEAD input
       set_status set_inboundRequest set_inboundStatus set_negotiated
       set_inbound set_outbound set_content set_contentLength set_requests
       set_replies set_errors set_outboundQueue set_closeAfterSend
       set_writePending set_free set_isHEAD set_input
       fst snd assignStatus] in *.

(** ** The rest of the session and the flow *)

(** [trigger405]: whether a 405 is more appropriate than a 404. The set
    [non405method] of methods that are valid for every resource is declared
    in another header and is a parameter; [methods] is the set in iteration
    order. *)
Fixpoint trigger405 (non405method methods : list string) : bool :=
  match methods with
  | [] => false
  | m :: r =>
      if negb (existsb (String.eqb m) non405method) then true
      else trigger405 non405method r
  end.

(** Whether a character occurs in a buffer. *)
Fixpoint occurs (c : ascii) (buf : string) : bool :=
  match buf with
  | EmptyString => false
  | String x r => Ascii.eqb x c || occurs c r
  end.

(** The statuses in which [buffer] reads a line. *)
Definition readsLine (st : enum_status) : bool :=
  match st with
  | stRequest | stStatus | stHeader => true
  | _ => false
  end.

(** The operations of a teardown, in the order [recycle] issues them. *)
Definition closing (f : flow) : list operation :=
  ((if canShutdown f then [shutdown inputConnection] else [])
   ++ [close inputConnection]
   ++ (if separateOutput f
       then (if canShutdown f then [shutdown outputConnection] else [])
            ++ [close outputConnection]
       else []))%list.

(** How often a connection is closed, or shut down, by some operations. *)
Definition connection_eqb (a b : connection) : bool :=
  match a, b with
  | inputConnection, inputConnection => true
  | outputConnection, outputConnection => true
  | _, _ => false
  end.

Fixpoint closes (c : connection) (ops : list operation) : nat :=
  match ops with
  | [] => O
  | close c' :: r =>
      if connection_eqb c c' then S (closes c r) else closes c r
  | _ :: r => closes c r
  end.

Fixpoint shutdowns (ops : list operation) : nat :=
  match ops with
  | [] => O
  | shutdown _ :: r => S (shutdowns r)
  | _ :: r => shutdowns r
  end.

(** The calls that only put a message into the queue. *)
Definition enqueues (e : event) : bool :=
  match e with
  | replyCalled _ _ _ | requestCalled _ _ _ _ => true
  | _ => false
  end.

(** The hook that runs after processing leaves the queue, the close flag,
    the write flag and the free flag to the flow. *)
Definition keepsQueue (P : processor.t) : Prop :=
  keeps (fun s => (outboundQueue s, closeAfterSend s, writePending s, free s))
        (fun s => fst (processor.afterProcessing P s)).

(** * Properties *)

(** ** Strings *)

Lemma append_assoc (a b c : string) : (a ++ b) ++ c = a ++ (b ++ c).
Proof. induction a as [|x a IH]; simpl; [reflexivity | now rewrite IH]. Qed.

Lemma append_empty_r (a : string) : a ++ "" = a.
Proof. induction a as [|x a IH]; simpl; [reflexivity | now rewrite IH]. Qed.

Lemma size_append (a b : string) : size (a ++ b) = size a + size b.
Proof.
  unfold size. induction a as [|x a IH]; simpl String.length.
  - reflexivity.
  - rewrite !Nat2Z.inj_succ. simpl in IH. lia.
Qed.

Lemma size_nonneg (a : string) : 0 <= size a.
Proof. unfold size. lia. Qed.

Lemma empty_true (a : string) : empty a = true <-> a = "".
Proof. destruct a; simpl; split; congruence. Qed.

Lemma status_eqb_eq a b : status_eqb a b = true <-> a = b.
Proof. destruct a, b; simpl; split; intro H; congruence. Qed.

Lemma status_eqb_refl a : status_eqb a a = true.
Proof. now destruct a. Qed.

Lemma status_eqb_neq a b : status_eqb a b = false <-> a <> b.
Proof.
  split.
  - intros H Heq. subst. rewrite status_eqb_refl in H. discriminate.
  - intro H. destruct (status_eqb a b) eqn:Hab; [|reflexivity].
    apply status_eqb_eq in Hab. contradiction.
Qed.

(** ** The case-insensitive order *)

Lemma sameKey_lowered (a b : string) :
  sameKey a b = true <-> lowered a = lowered b.
Proof.
  unfold sameKey. revert b.
  induction a as [|x a IH]; intros [|y b]; simpl.
  - split; reflexivity.
  - split; discriminate.
  - split; discriminate.
  - destruct (N.ltb_spec (tolower x) (tolower y)) as [Hxy|Hxy];
      destruct (N.ltb_spec (tolower y) (tolower x)) as [Hyx|Hyx]; simpl;
      try (split; [discriminate|]; intro H; injection H as H _; lia).
    assert (tolower x = tolower y) as Heq by lia.
    rewrite IH, Heq. split; intro H; [now rewrite H | now injection H].
Qed.

Lemma sameKey_refl (a : string) : sameKey a a = true.
Proof. now apply sameKey_lowered. Qed.

Lemma sameKey_sym (a b : string) : sameKey a b = sameKey b a.
Proof. unfold sameKey. apply andb_comm. Qed.

Lemma sameKey_trans (a b c : string) :
  sameKey a b = true -> sameKey b c = true -> sameKey a c = true.
Proof. rewrite !sameKey_lowered. congruence. Qed.

(** Equivalent keys cannot be told apart by any comparison. *)
Lemma sameKey_congr (a b x : string) :
  sameKey a b = true -> sameKey a x = sameKey b x.
Proof.
  intro Hab.
  destruct (sameKey a x) eqn:Hax, (sameKey b x) eqn:Hbx; try reflexivity.
  - rewrite sameKey_sym in Hab.
    now rewrite (sameKey_trans _ _ _ Hab Hax) in Hbx.
  - now rewrite (sameKey_trans _ _ _ Hab Hbx) in Hax.
Qed.

Lemma caseInsensitiveLT_not_same (a b : string) :
  caseInsensitiveLT a b = true -> sameKey a b = false.
Proof. unfold sameKey. now intros ->. Qed.

(** ** Lookup in the header map *)

Lemma entry_congr (j k : string) (m : headers) :
  sameKey j k = true -> entry j m = entry k m.
Proof.
  intro H. induction m as [|[k' v'] r IH]; simpl; [reflexivity|].
  now rewrite (sameKey_congr _ _ _ H), IH.
Qed.

Lemma entry_place (j k v : string) (m : headers) :
  entry k m = None ->
  entry j (place k v m) = if sameKey j k then Some (k, v) else entry j m.
Proof.
  induction m as [|[k' v'] r IH]; simpl; intro Hk.
  - reflexivity.
  - destruct (sameKey k k') eqn:Hkk'; [discriminate|].
    destruct (caseInsensitiveLT k k'); simpl.
    + reflexivity.
    + rewrite (IH Hk).
      destruct (sameKey j k) eqn:Hjk; [|reflexivity].
      now rewrite (sameKey_congr _ _ _ Hjk), Hkk'.
Qed.

Lemma entry_insert1 (j : string) (e : string * string) (m : headers) :
  entry j (insert1 e m) =
  match entry j m with
  | Some x => Some x
  | None => if sameKey j (fst e) then Some e else None
  end.
Proof.
  destruct e as [k v]. unfold insert1. simpl fst. simpl snd.
  destruct (entry k m) eqn:Hk.
  - destruct (entry j m) eqn:Hj; [reflexivity|].
    destruct (sameKey j k) eqn:Hjk; [|reflexivity].
    rewrite (entry_congr _ _ _ Hjk) in Hj. congruence.
  - rewrite (entry_place _ _ _ _ Hk).
    destruct (sameKey j k) eqn:Hjk.
    + now rewrite (entry_congr _ _ _ Hjk), Hk.
    + now destruct (entry j m).
Qed.

(** Merging a map: what is set stays, the rest is taken from the new map. *)
Lemma entry_insert (j : string) (map : headers) (p : parserHeaders) :
  entry j (header (insert map p)) =
  match entry j (header p) with
  | Some x => Some x
  | None => entry j map
  end.
Proof.
  unfold insert. simpl. generalize (header p) as dst.
  induction map as [|[k v] r IH]; intro dst; simpl.
  - now destruct (entry j dst).
  - rewrite IH, entry_insert1. simpl fst.
    destruct (entry j dst); [reflexivity|].
    now destruct (sameKey j k).
Qed.

Lemma find_insert (j : string) (map : headers) (p : parserHeaders) :
  find j (header (insert map p)) =
  match find j (header p) with
  | Some x => Some x
  | None => find j map
  end.
Proof.
  unfold find. rewrite entry_insert. now destruct (entry j (header p)).
Qed.

Lemma find_replace (j k v : string) (m : headers) :
  entry k m <> None ->
  find j (replace k v m) = if sameKey j k then Some v else find j m.
Proof.
  unfold find.
  induction m as [|[k' v'] r IH]; simpl; intro Hk; [congruence|].
  destruct (sameKey k k') eqn:Hkk'; simpl.
  - assert (sameKey j k = sameKey j k') as ->.
    { rewrite (sameKey_sym j k), (sameKey_sym j k').
      now apply sameKey_congr. }
    now destruct (sameKey j k').
  - destruct (sameKey j k') eqn:Hjk'; simpl.
    + destruct (sameKey j k) eqn:Hjk; [|reflexivity].
      rewrite (sameKey_congr _ _ k' Hjk) in Hjk'. congruence.
    + now apply IH.
Qed.

Lemma find_assign (j k v : string) (m : headers) :
  find j (assign k v m) = if sameKey j k then Some v else find j m.
Proof.
  unfold assign. destruct (entry k m) eqn:Hk.
  - apply find_replace. congruence.
  - unfold find. rewrite (entry_place _ _ _ _ Hk).
    now destruct (sameKey j k).
Qed.

Lemma entry_In (j : string) (m : headers) (e : string * string) :
  entry j m = Some e -> In e m.
Proof.
  induction m as [|[k' v'] r IH]; simpl; [discriminate|].
  destruct (sameKey j k'); intro H; [left; congruence | right; auto].
Qed.

(** Every entry of a map is a line of its string form. *)
Lemma headersString_In (k v : string) (m : headers) :
  In (k, v) m ->
  exists before after,
    headersString m = before ++ (k ++ ": " ++ v ++ CRLF) ++ after.
Proof.
  induction m as [|[k' v'] r IH]; simpl; [contradiction|].
  intros [Heq | Hin].
  - injection Heq as -> ->. exists "", (headersString r).
    simpl. rewrite !append_assoc. simpl. now rewrite !append_assoc.
  - destruct (IH Hin) as (b & a & Hr). rewrite Hr.
    exists ((k' ++ ": " ++ v' ++ CRLF) ++ b), a.
    rewrite !append_assoc. simpl. now rewrite !append_assoc.
Qed.

(** ** Replies *)

Section ReplyProperties.

Variable E : collaborators.

(** The headers set by [generateReply] itself. *)
Lemma entry_autoHead (j : string) (s : sessionData) (status : Z)
    (body : string) :
  entry j (header (autoHead s status body)) =
  if sameKey j "Content-Length" && ((status >=? 200) || isHEAD s)
  then Some ("Content-Length", to_string (size body))
  else if sameKey j "Connection" && (status >=? 400)
  then Some ("Connection", "close")
  else None.
Proof.
  unfold autoHead.
  assert ((status <? 400) = negb (status >=? 400)) as -> by lia.
  rewrite negb_involutive.
  assert (((status >=? 200) && negb (isHEAD s) || isHEAD s)
          = ((status >=? 200) || isHEAD s)) as ->
    by (destruct (status >=? 200), (isHEAD s); reflexivity).
  destruct ((status >=? 200) || isHEAD s), (status >=? 400);
    rewrite ?entry_insert; simpl;
    rewrite ?andb_true_r, ?andb_false_r;
    destruct (sameKey j "Content-Length") eqn:Hcl;
    destruct (sameKey j "Connection") eqn:Hco; try reflexivity.
Qed.

(** Precedence in the header block of a reply: a header set by
    [generateReply] itself stays, then the caller's headers, then the
    outbound headers of the session. *)
Lemma entry_replyHead (j : string) (s : sessionData) (status : Z)
    (body : string) (hdr : headers) :
  entry j (header (replyHead s status body hdr)) =
  match entry j (header (autoHead s status body)) with
  | Some x => Some x
  | None =>
      match entry j hdr with
      | Some x => Some x
      | None => entry j (header (outbound s))
      end
  end.
Proof.
  unfold replyHead. rewrite !entry_insert.
  now destruct (entry j (header (autoHead s status body))).
Qed.

Lemma generateReply_split (s : sessionData) (status : Z) (body : string)
    (hdr : headers) :
  generateReply E s status body hdr =
  (statusLineString E status ++ parserString (replyHead s status body hdr)
   ++ CRLF)
  ++ (if (status >=? 200) && negb (isHEAD s) then body else "").
Proof.
  unfold generateReply.
  destruct ((status >=? 200) && negb (isHEAD s)); [reflexivity|].
  now rewrite append_empty_r.
Qed.

Lemma parserString_line (j k v : string) (p : parserHeaders) :
  entry j (header p) = Some (k, v) ->
  exists before after,
    parserString p = before ++ (k ++ ": " ++ v ++ CRLF) ++ after.
Proof. intro H. apply headersString_In. now apply entry_In in H. Qed.

End ReplyProperties.

(** C1. For every status, body and header map, the message of
    [generateReply] is the status line, the header block and an empty line,
    followed by the body exactly when the status is at least 200 and the
    session is not flagged as a HEAD request; a status below 200 never has a
    body; on a HEAD session the header block carries Content-Length with the
    size of the body and the body is left out; a status of 400 or more puts
    "Connection: close" into the header block, and [reply] with such a
    status queues the message and sets [closeAfterSend]. *)
Theorem generateReply_body_length_close (E : collaborators)
    (s : sessionData) (status : Z) (body : string) (hdr : headers) :
  let head := replyHead s status body hdr in
  let front := statusLineString E status ++ parserString head ++ CRLF in
  let message := generateReply E s status body hdr in
  message
  = front ++ (if (status >=? 200) && negb (isHEAD s) then body else "")
  /\ (status < 200 -> message = front)
  /\ (isHEAD s = true ->
      message = front
      /\ find "Content-Length" (header head) = Some (to_string (size body))
      /\ exists before after,
           parserString head
           = before ++ ("Content-Length: " ++ to_string (size body) ++ CRLF)
             ++ after)
  /\ (400 <= status ->
      find "Connection" (header head) = Some "close"
      /\ (exists before after,
           parserString head = before ++ ("Connection: close" ++ CRLF) ++ after)
      /\ closeAfterSend (reply E status body hdr s) = true)
  /\ outboundQueue (reply E status body hdr s)
     = (outboundQueue s ++ [message])%list.
Proof.
  intros head front message.
  assert (Hsplit : message
    = front ++ (if (status >=? 200) && negb (isHEAD s) then body else ""))
    by apply generateReply_split.
  split; [exact Hsplit|].
  split.
  { intro Hlt. rewrite Hsplit.
    assert ((status >=? 200) = false) as -> by lia.
    simpl. apply append_empty_r. }
  split.
  { intro Hhead.
    assert (Hentry : entry "Content-Length" (header head)
                     = Some ("Content-Length", to_string (size body))).
    { unfold head. rewrite entry_replyHead, entry_autoHead, Hhead.
      now rewrite orb_true_r. }
    split; [|split].
    - rewrite Hsplit, Hhead, andb_false_r. apply append_empty_r.
    - unfold find. now rewrite Hentry.
    - apply (parserString_line _ _ _ _ Hentry). }
  split.
  { intro Hge.
    assert (Hentry : entry "Connection" (header head)
                     = Some ("Connection", "close")).
    { unfold head. rewrite entry_replyHead, entry_autoHead.
      assert ((status >=? 400) = true) as -> by lia.
      reflexivity. }
    split; [|split].
    - unfold find. now rewrite Hentry.
    - apply (parserString_line _ _ _ _ Hentry).
    - unfold reply. simpl.
      assert ((status >=? 400) = true) as -> by lia.
      apply orb_true_r. }
  reflexivity.
Qed.

(** The three replies of the documentation: 101 with a body that is
    ignored, 200 on a HEAD session, and 404. *)
Lemma generateReply_examples :
  generateReply sample.E newSessionData 101 "ignored-body" []
  = "HTTP/1.1 101 Switching Protocols" ++ CRLF ++ CRLF
  /\ generateReply sample.E (set_isHEAD true newSessionData) 200 "hello" []
     = "HTTP/1.1 200 OK" ++ CRLF ++ "Content-Length: 5" ++ CRLF ++ CRLF
  /\ generateReply sample.E newSessionData 404 "not found" []
     = "HTTP/1.1 404 Not Found" ++ CRLF ++ "Connection: close" ++ CRLF
       ++ "Content-Length: 9" ++ CRLF ++ CRLF ++ "not found"
  /\ closeAfterSend (reply sample.E 404 "not found" [] newSessionData) = true.
Proof. repeat split; reflexivity. Qed.

Lemma generateReply_body_length_close_witness :
  let s := set_isHEAD true newSessionData in
  let head := replyHead s 404 "not found" [] in
  generateReply sample.E s 404 "not found" []
  = statusLineString sample.E 404 ++ parserString head ++ CRLF
  /\ generateReply sample.E newSessionData 101 "ignored-body" []
     = statusLineString sample.E 101
       ++ parserString (replyHead newSessionData 101 "ignored-body" [])
       ++ CRLF
  /\ find "Content-Length" (header head) = Some "9"
  /\ find "Connection" (header head) = Some "close"
  /\ closeAfterSend (reply sample.E 404 "not found" [] s) = true.
Proof.
  intros s head.
  destruct (generateReply_body_length_close sample.E s 404 "not found" [])
    as (_ & _ & Hhead & Hclose & _).
  destruct (generateReply_body_length_close sample.E newSessionData 101
              "ignored-body" []) as (_ & Hinfo & _).
  destruct (Hhead eq_refl) as (H1 & H2 & _).
  destruct (Hclose ltac:(lia)) as (H3 & _ & H4).
  split; [exact H1|]. split; [apply Hinfo; lia|].
  split; [exact H2|]. split; [exact H3 | exact H4].
Defined.

(** C2, as stated, fails: a header of the caller does not replace a header
    that [generateReply] sets itself, and an outbound header of the session
    does not replace a header of the caller. *)
Lemma replyHead_later_insert_does_not_override :
  ~ (forall (s : sessionData) (status : Z) (body : string) (hdr : headers)
            (j v : string),
        find j hdr = Some v ->
        find j (header (outbound s)) = None ->
        find j (header (replyHead s status body hdr)) = Some v)
  /\ ~ (forall (s : sessionData) (status : Z) (body : string)
               (hdr : headers) (j v : string),
          find j (header (outbound s)) = Some v ->
          find j (header (replyHead s status body hdr)) = Some v).
Proof.
  split; intro H.
  - specialize (H newSessionData 200 "hello"
                  (mkHeaders [("Content-Length", "999")])
                  "Content-Length" "999" eq_refl eq_refl).
    vm_compute in H. discriminate.
  - specialize (H (set_outbound
                     (parserOf (mkHeaders [("Content-Type", "text/html")]))
                     newSessionData)
                  200 "hello" (mkHeaders [("Content-Type", "text/plain")])
                  "Content-Type" "text/html" eq_refl).
    vm_compute in H. discriminate.
Qed.

(** The message for the inputs above: the length is that of the body, and
    the content type is the one the caller gave. *)
Lemma generateReply_precedence_example :
  generateReply sample.E
    (set_outbound (parserOf (mkHeaders [("Content-Type", "text/html")]))
                  newSessionData)
    200 "hello"
    (mkHeaders [("Content-Length", "999"); ("Content-Type", "text/plain")])
  = "HTTP/1.1 200 OK" ++ CRLF ++ "Content-Length: 5" ++ CRLF
    ++ "Content-Type: text/plain" ++ CRLF ++ CRLF ++ "hello".
Proof. reflexivity. Qed.

(** C2, amended. When a header name is defined by more than one source, the
    source inserted first wins: a header that [generateReply] sets itself
    (Content-Length, Connection) stays, a header of the caller is used where
    [generateReply] sets none, and an outbound header of the session is used
    only where neither defines the name. The entry that results is a line of
    the serialized message. *)
Theorem replyHead_precedence (E : collaborators) (s : sessionData)
    (status : Z) (body : string) (hdr : headers) (j : string) :
  let head := replyHead s status body hdr in
  entry j (header head)
  = match entry j (header (autoHead s status body)) with
    | Some x => Some x
    | None =>
        match entry j hdr with
        | Some x => Some x
        | None => entry j (header (outbound s))
        end
    end
  /\ entry j (header (autoHead s status body))
     = (if sameKey j "Content-Length" && ((status >=? 200) || isHEAD s)
        then Some ("Content-Length", to_string (size body))
        else if sameKey j "Connection" && (status >=? 400)
        then Some ("Connection", "close")
        else None)
  /\ match entry j (header head) with
     | Some (k, v) =>
         exists before after,
           generateReply E s status body hdr
           = before ++ (k ++ ": " ++ v ++ CRLF) ++ after
     | None => True
     end.
Proof.
  intro head. split; [apply entry_replyHead|].
  split; [apply entry_autoHead|].
  destruct (entry j (header head)) as [[k v]|] eqn:Hj; [|exact I].
  destruct (parserString_line _ _ _ _ Hj) as (b & a & Hline).
  rewrite generateReply_split. fold head. rewrite Hline.
  exists (statusLineString E status ++ b).
  exists (a ++ CRLF
          ++ (if (status >=? 200) && negb (isHEAD s) then body else "")).
  now rewrite !append_assoc.
Qed.

(** ** Requests *)

(** C9. Every request message has the default client headers merged in: the
    header block has every header of the caller unchanged, and a User-Agent
    header with the library identifier exactly when the caller gave none;
    the User-Agent line is part of the message that is queued. *)
Theorem request_default_headers (E : collaborators)
    (method resource : string) (hdr : headers) (body : string)
    (s : sessionData) :
  let head := requestHead E hdr in
  let agent := match find "User-Agent" hdr with
               | Some v => v
               | None => identifier E
               end in
  outboundQueue (request E method resource hdr body s)
  = (outboundQueue s
     ++ [(assemble E method resource ++ parserString head ++ CRLF
          ++ body)%string])%list
  /\ (forall j,
        entry j (header head)
        = match entry j hdr with
          | Some e => Some e
          | None =>
              if sameKey j "User-Agent"
              then Some ("User-Agent", identifier E)
              else None
          end)
  /\ find "User-Agent" (header head) = Some agent
  /\ exists k before after,
       sameKey k "User-Agent" = true
       /\ parserString head = before ++ (k ++ ": " ++ agent ++ CRLF) ++ after.
Proof.
  intros head agent.
  assert (Hentry : forall j,
    entry j (header head)
    = match entry j hdr with
      | Some e => Some e
      | None =>
          if sameKey j "User-Agent"
          then Some ("User-Agent", identifier E)
          else None
      end).
  { intro j. unfold head, requestHead. rewrite entry_insert. simpl.
    destruct (entry j hdr); [reflexivity|].
    now destruct (sameKey j "User-Agent"). }
  split; [reflexivity|]. split; [exact Hentry|].
  assert (Hagent : exists k,
    sameKey k "User-Agent" = true
    /\ entry "User-Agent" (header head) = Some (k, agent)).
  { rewrite Hentry. unfold agent, find.
    destruct (entry "User-Agent" hdr) as [[k v]|] eqn:Hua; simpl.
    - exists k. split; [|reflexivity].
      clear - Hua. induction hdr as [|[k' v'] r IH]; simpl in Hua.
      + discriminate.
      + destruct (sameKey "User-Agent" k') eqn:Hk.
        * injection Hua as <- _. now rewrite sameKey_sym.
        * auto.
    - exists "User-Agent". split; reflexivity. }
  destruct Hagent as (k & Hk & Hua).
  split.
  - unfold find. now rewrite Hua.
  - destruct (parserString_line _ _ _ _ Hua) as (b & a & Hline).
    exists k, b, a. split; assumption.
Qed.

Lemma request_examples :
  outboundQueue (request sample.E "GET" "/" [] "" newSessionData)
  = ["GET / HTTP/1.1" ++ CRLF ++ "User-Agent: cxxhttp/sample" ++ CRLF ++ CRLF]
  /\ outboundQueue
       (request sample.E "HEAD" "/" (mkHeaders [("user-agent", "mine")]) ""
                newSessionData)
     = ["HEAD / HTTP/1.1" ++ CRLF ++ "user-agent: mine" ++ CRLF ++ CRLF].
Proof. split; reflexivity. Qed.

(** ** Negotiation *)

Lemma caseInsensitiveLT_trans (a b c : string) :
  caseInsensitiveLT a b = true -> caseInsensitiveLT b c = true ->
  caseInsensitiveLT a c = true.
Proof.
  revert b c. induction a as [|x a IH]; intros [|y b] [|z c]; simpl;
    try discriminate; try reflexivity.
  destruct (N.ltb_spec (tolower x) (tolower y));
    destruct (N.ltb_spec (tolower y) (tolower x));
    destruct (N.ltb_spec (tolower y) (tolower z));
    destruct (N.ltb_spec (tolower z) (tolower y));
    destruct (N.ltb_spec (tolower x) (tolower z));
    destruct (N.ltb_spec (tolower z) (tolower x));
    try discriminate; try reflexivity; try lia.
  apply IH.
Qed.

Lemma sortedKeys_tail (e : string * string) (r : headers) :
  sortedKeys (e :: r) = true -> sortedKeys r = true.
Proof.
  destruct e as [k v]. simpl. destruct r as [|[k' v'] r]; [reflexivity|].
  intro H. now apply andb_prop in H.
Qed.

Lemma sortedKeys_greater (k v : string) (r : headers) :
  sortedKeys ((k, v) :: r) = true ->
  forall e, In e r -> caseInsensitiveLT k (fst e) = true.
Proof.
  revert k v. induction r as [|[k' v'] r IH]; intros k v Hs e Hin.
  - contradiction.
  - simpl in Hs. apply andb_prop in Hs. destruct Hs as [Hlt Hs].
    destruct Hin as [<- | Hin]; [exact Hlt|].
    apply (caseInsensitiveLT_trans _ k'); [exact Hlt|].
    now apply (IH k' v').
Qed.

(** In a map, no later entry has a key equivalent to an earlier one. *)
Lemma sortedKeys_entry_tail (j k v : string) (r : headers) :
  sortedKeys ((k, v) :: r) = true -> sameKey j k = true -> entry j r = None.
Proof.
  intros Hs Hjk.
  assert (Hall : forall e, In e r -> sameKey j (fst e) = false).
  { intros e Hin. rewrite (sameKey_congr _ _ _ Hjk).
    apply caseInsensitiveLT_not_same.
    now apply (sortedKeys_greater k v r). }
  clear Hs. induction r as [|[k' v'] r IH]; simpl; [reflexivity|].
  assert (Hhead := Hall (k', v') (or_introl eq_refl)).
  simpl fst in Hhead. rewrite Hhead.
  apply IH. intros e Hin. apply Hall. now right.
Qed.

Lemma sortedKeys_entry_In (e : string * string) (m : headers) :
  sortedKeys m = true -> In e m -> entry (fst e) m = Some e.
Proof.
  induction m as [|[k v] r IH]; intros Hs Hin; [contradiction|].
  simpl. destruct Hin as [<- | Hin].
  - simpl. now rewrite sameKey_refl.
  - assert (Hlt := sortedKeys_greater k v r Hs e Hin).
    assert (sameKey (fst e) k = false) as ->.
    { rewrite sameKey_sym. now apply caseInsensitiveLT_not_same. }
    apply IH; [now apply sortedKeys_tail in Hs | exact Hin].
Qed.

Lemma appendValue_shape (cur value : string) :
  appendValue cur value = cur ++ (if empty cur then "" else ",") ++ value.
Proof.
  unfold appendValue. destruct (empty cur) eqn:He; [|reflexivity].
  apply empty_true in He. now subst.
Qed.

Lemma fold_appendValue_prefix (names : list string) (cur : string) :
  exists after, fold_left appendValue names cur = cur ++ after.
Proof.
  revert cur. induction names as [|x r IH]; intro cur; simpl.
  - exists "". now rewrite append_empty_r.
  - destruct (IH (appendValue cur x)) as (a & Ha). rewrite Ha.
    rewrite appendValue_shape. eexists. rewrite !append_assoc. reflexivity.
Qed.

(** Every appended name is part of the resulting list. *)
Lemma fold_appendValue_In (names : list string) (cur name : string) :
  In name names ->
  exists before after,
    fold_left appendValue names cur = before ++ name ++ after.
Proof.
  revert cur. induction names as [|x r IH]; intros cur Hin; [contradiction|].
  simpl. destruct Hin as [-> | Hin]; [|now apply IH].
  destruct (fold_appendValue_prefix r (appendValue cur name)) as (a & Ha).
  rewrite Ha, appendValue_shape.
  exists (cur ++ (if empty cur then "" else ",")), a.
  now rewrite !append_assoc.
Qed.

Lemma find_sendNegotiatedAs (k : string) :
  find k sendNegotiatedAs
  = if sameKey k "Accept" then Some "Content-Type" else None.
Proof.
  change sendNegotiatedAs with [("Accept", "Content-Type")].
  unfold find. cbn [entry].
  now destruct (sameKey k "Accept").
Qed.

Section NegotiateProperties.

Variable E : collaborators.

Lemma negotiateOne_spec (s : sessionData) (b : bool) (n : string * string) :
  let s1 := fst (negotiateOne E (s, b) n) in
  inbound s1 = inbound s
  /\ snd (negotiateOne E (s, b) n)
     = b || empty (negotiatedValue E (inbound s) n)
  /\ (forall j, find j (negotiated s1)
                = if sameKey j (fst n)
                  then Some (negotiatedValue E (inbound s) n)
                  else find j (negotiated s))
  /\ varyOf s1 = appendValue (varyOf s) (fst n)
  /\ find "Vary" (header (outbound s1))
     = Some (appendValue (varyOf s) (fst n))
  /\ (forall j, sameKey j "Vary" = false ->
                find j (header (outbound s1))
                = if sameKey (fst n) "Accept" && sameKey j "Content-Type"
                  then Some (negotiatedValue E (inbound s) n)
                  else find j (header (outbound s))).
Proof.
  unfold negotiateOne, negotiatedValue. rewrite find_sendNegotiatedAs.
  assert (Hvary : forall x m,
    find "Vary"
      (assign "Content-Type" x
         (assign "Vary" (appendValue (varyOf s) (fst n)) m))
    = Some (appendValue (varyOf s) (fst n))).
  { intros x m. rewrite !find_assign. reflexivity. }
  destruct (sameKey (fst n) "Accept") eqn:Hacc; simpl;
    (split; [reflexivity|]); (split; [reflexivity|]);
    (split; [intro j; apply find_assign|]).
  - unfold varyOf at 1. simpl. fold (varyOf s). rewrite Hvary.
    split; [reflexivity|]. split; [reflexivity|].
    intros j Hj. rewrite !find_assign, Hj.
    now destruct (sameKey j "Content-Type").
  - unfold varyOf at 1. simpl. fold (varyOf s).
    rewrite find_assign, sameKey_refl.
    split; [reflexivity|]. split; [reflexivity|].
    intros j Hj. now rewrite find_assign, Hj.
Qed.

Lemma negotiate_fold (l : headers) (s : sessionData) (b : bool) :
  let s' := fst (fold_left (negotiateOne E) l (s, b)) in
  inbound s' = inbound s
  /\ snd (fold_left (negotiateOne E) l (s, b))
     = b || existsb (fun n => empty (negotiatedValue E (inbound s) n)) l
  /\ varyOf s' = fold_left appendValue (map fst l) (varyOf s)
  /\ (sortedKeys l = true ->
      (forall j, find j (negotiated s')
                 = match entry j l with
                   | Some n => Some (negotiatedValue E (inbound s) n)
                   | None => find j (negotiated s)
                   end)
      /\ (forall j, sameKey j "Vary" = false ->
                    find j (header (outbound s'))
                    = match entry "Accept" l with
                      | Some n =>
                          if sameKey j "Content-Type"
                          then Some (negotiatedValue E (inbound s) n)
                          else find j (header (outbound s))
                      | None => find j (header (outbound s))
                      end)).
Proof.
  revert s b. induction l as [|n r IH]; intros s b.
  - simpl. rewrite orb_false_r. repeat split; reflexivity.
  - cbn [fold_left].
    destruct (negotiateOne E (s, b) n) as [s1 b1] eqn:Hone.
    destruct (negotiateOne_spec s b n)
      as (Hinb & Hbad & Hneg & Hvary & _ & Hout).
    rewrite Hone in Hinb, Hbad, Hneg, Hvary, Hout. cbn [fst snd] in *.
    destruct (IH s1 b1) as (IHinb & IHbad & IHvary & IHsorted).
    cbn zeta in *.
    split; [congruence|].
    split; [rewrite IHbad, Hbad, Hinb; simpl; now rewrite orb_assoc|].
    split; [rewrite IHvary, Hvary; reflexivity|].
    intro Hs. destruct n as [k spec].
    destruct (IHsorted (sortedKeys_tail _ _ Hs)) as (IHneg & IHout).
    split.
    + intro j. rewrite IHneg, Hneg, Hinb. cbn [entry fst].
      destruct (sameKey j k) eqn:Hjk.
      * now rewrite (sortedKeys_entry_tail j k spec r Hs Hjk).
      * reflexivity.
    + intros j Hj. rewrite (IHout j Hj), (Hout j Hj), Hinb.
      cbn [entry fst]. rewrite (sameKey_sym "Accept" k).
      destruct (sameKey k "Accept") eqn:Hk.
      * rewrite sameKey_sym in Hk.
        rewrite (sortedKeys_entry_tail "Accept" k spec r Hs Hk).
        reflexivity.
      * simpl. reflexivity.
Qed.

(** After at least one round the Vary header is set. *)
Lemma negotiate_vary_set (l : headers) (s : sessionData) (b : bool)
    (n : string * string) :
  let s' := fst (fold_left (negotiateOne E) (n :: l) (s, b)) in
  find "Vary" (header (outbound s')) = Some (varyOf s').
Proof.
  revert s b n. induction l as [|n1 r IH]; intros s b n.
  - cbn [fold_left].
    destruct (negotiateOne_spec s b n) as (_ & _ & _ & Hv & Hf & _).
    cbn zeta in *. now rewrite Hf, Hv.
  - cbn [fold_left] in *.
    destruct (negotiateOne E (s, b) n) as [s1 b1].
    apply (IH s1 b1 n1).
Qed.

End NegotiateProperties.

(** C7. For every map of negotiations, [negotiate] returns false exactly
    when some negotiation gives an empty value, and every entry is
    processed all the same: its value is recorded in [negotiated], its name
    is part of the outbound Vary header, which is the old value with all
    names appended in order, and where [sendNegotiatedAs] maps the name to
    an outbound name (Accept to Content-Type) that outbound header is set to
    the value. An inbound header that was not sent is negotiated with the
    empty string as the client's preference. *)
Theorem negotiate_soft_fail (E : collaborators) (negotiations : headers)
    (s : sessionData) :
  sortedKeys negotiations = true ->
  let value := negotiatedValue E (inbound s) in
  let s' := snd (negotiate E negotiations s) in
  (fst (negotiate E negotiations s) = false
   <-> exists n, In n negotiations /\ value n = "")
  /\ (forall n, In n negotiations ->
        find (fst n) (negotiated s') = Some (value n)
        /\ (exists before after, varyOf s' = before ++ fst n ++ after)
        /\ find "Vary" (header (outbound s')) = Some (varyOf s')
        /\ (forall sendAs, find (fst n) sendNegotiatedAs = Some sendAs ->
              find sendAs (header (outbound s')) = Some (value n)))
  /\ varyOf s' = fold_left appendValue (map fst negotiations) (varyOf s)
  /\ (forall name spec, find name (header (inbound s)) = None ->
        value (name, spec) = negotiateValue E "" spec)
  /\ inbound s' = inbound s.
Proof.
  intros Hs value s'.
  unfold negotiate in s'. unfold negotiate.
  destruct (negotiate_fold E negotiations (set_negotiated [] s) false)
    as (Hinb & Hbad & Hvary & Hsorted).
  destruct (Hsorted Hs) as (Hneg & Hout). clear Hsorted.
  destruct (fold_left (negotiateOne E) negotiations
                      (set_negotiated [] s, false)) as [s1 b1] eqn:Hfold.
  cbn [fst snd] in *. subst s'. cbn [fst snd].
  change (inbound (set_negotiated [] s)) with (inbound s) in *.
  change (varyOf (set_negotiated [] s)) with (varyOf s) in *.
  change (header (outbound (set_negotiated [] s)))
    with (header (outbound s)) in *.
  split.
  { rewrite Hbad. simpl. rewrite negb_false_iff, existsb_exists.
    split; intros (n & Hin & Hn); exists n; (split; [exact Hin|]);
      now apply empty_true. }
  split.
  { intros n Hin.
    assert (Hentry := sortedKeys_entry_In n negotiations Hs Hin).
    split; [now rewrite Hneg, Hentry|].
    split.
    { rewrite Hvary. apply fold_appendValue_In. now apply in_map. }
    split.
    { destruct negotiations as [|n0 r]; [contradiction|].
      assert (Hset := negotiate_vary_set E r (set_negotiated [] s) false n0).
      rewrite Hfold in Hset. exact Hset. }
    intros sendAs Hsend. rewrite find_sendNegotiatedAs in Hsend.
    destruct (sameKey (fst n) "Accept") eqn:Hacc; [|discriminate].
    injection Hsend as <-.
    rewrite (Hout "Content-Type" eq_refl).
    rewrite sameKey_sym in Hacc.
    now rewrite (entry_congr _ _ _ Hacc), Hentry. }
  split; [exact Hvary|].
  split; [|exact Hinb].
  intros name spec Hname. unfold value, negotiatedValue, clientValue.
  cbn [fst snd]. rewrite Hname.
  now destruct (count name (header (inbound s)) >? 0).
Qed.

(** The negotiation of the documentation: Accept is negotiated although the
    request has no Accept header. And a negotiation that fails: the client
    accepts only image/png, the result is false, and Accept-Language is
    negotiated all the same. *)
Lemma negotiate_soft_fail_witness :
  let negotiations := mkHeaders [("Accept", "text/html,text/plain")] in
  let s' := snd (negotiate sample.E negotiations newSessionData) in
  let both :=
    mkHeaders [("Accept", "text/html"); ("Accept-Language", "en,de")] in
  let picky :=
    set_inbound (parserOf (mkHeaders [("accept", "image/png")]))
                newSessionData in
  let t' := snd (negotiate sample.E both picky) in
  (find "Accept" (negotiated s') = Some "text/html"
   /\ find "Vary" (header (outbound s')) = Some "Accept"
   /\ find "Content-Type" (header (outbound s')) = Some "text/html"
   /\ fst (negotiate sample.E negotiations newSessionData) = true)
  /\ (fst (negotiate sample.E both picky) = false
      /\ find "Accept" (negotiated t') = Some ""
      /\ find "Accept-Language" (negotiated t') = Some "en"
      /\ varyOf t' = "Accept,Accept-Language").
Proof.
  intros negotiations s' both picky t'.
  destruct (negotiate_soft_fail sample.E negotiations newSessionData eq_refl)
    as (_ & Hall & _).
  destruct (Hall ("Accept", "text/html,text/plain") (or_introl eq_refl))
    as (Hneg & _ & Hvary & Hout).
  destruct (negotiate_soft_fail sample.E both picky eq_refl)
    as (Hfalse & Hall' & Hvary' & _).
  destruct (Hall' ("Accept", "text/html") (or_introl eq_refl))
    as (Hneg1 & _).
  destruct (Hall' ("Accept-Language", "en,de") (or_intror (or_introl eq_refl)))
    as (Hneg2 & _).
  split.
  - split; [exact Hneg|]. split; [exact Hvary|].
    split; [exact (Hout "Content-Type" eq_refl) | reflexivity].
  - split.
    + apply Hfalse. exists ("Accept", "text/html").
      split; [now left | reflexivity].
    + split; [exact Hneg1|]. split; [exact Hneg2 | exact Hvary'].
Defined.

(** ** The flow: recycling *)

Lemma session_maybeShutdown (c : connection) (f : flow) :
  session (maybeShutdown c f) = session f.
Proof. unfold maybeShutdown. now destruct (canShutdown f). Qed.

Lemma writesInFlight_maybeShutdown (c : connection) (f : flow) :
  writesInFlight (maybeShutdown c f) = writesInFlight f.
Proof. unfold maybeShutdown. now destruct (canShutdown f). Qed.

Lemma written_app (a b : list operation) :
  written (a ++ b) = (written a ++ written b)%list.
Proof.
  induction a as [|o a IH]; simpl; [reflexivity|].
  destruct o; simpl; now rewrite IH.
Qed.

Lemma reads_app (a b : list operation) :
  reads (a ++ b) = (reads a ++ reads b)%list.
Proof.
  induction a as [|o a IH]; simpl; [reflexivity|].
  destruct o; simpl; now rewrite IH.
Qed.

Section RecycleProperties.

Variable P : processor.t.

(** The session that [recycle] leaves when it acts. *)
Lemma session_recycle (f : flow) :
  free (session f) = false ->
  session (recycle P f)
  = let s0 := processor.recycle P (session f) in
    set_free true
      (set_input ""
         (set_errors (if closeError f then wrap (errors s0 + 1)
                      else errors s0)
            (set_outboundQueue []
               (set_closeAfterSend false (set_status stShutdown s0))))).
Proof.
  intro Hfree. unfold recycle. rewrite Hfree.
  unfold maybeShutdown.
  destruct f as [s ops n sep shut err]. simpl.
  destruct shut, sep, err; reflexivity.
Qed.

Lemma recycle_free (f : flow) : free (session f) = true -> recycle P f = f.
Proof. intro H. unfold recycle. now rewrite H. Qed.

Lemma free_recycle (f : flow) : free (session (recycle P f)) = true.
Proof.
  destruct (free (session f)) eqn:Hfree.
  - now rewrite recycle_free.
  - now rewrite session_recycle.
Qed.

Lemma writesInFlight_recycle (f : flow) :
  writesInFlight (recycle P f) = writesInFlight f.
Proof.
  unfold recycle. destruct (free (session f)); [reflexivity|].
  unfold maybeShutdown.
  destruct f as [s ops n sep shut err]. simpl.
  destruct shut, sep; reflexivity.
Qed.

(** [recycle] issues no read and no write. *)
Lemma written_recycle (f : flow) :
  written (issued (recycle P f)) = written (issued f)
  /\ reads (issued (recycle P f)) = reads (issued f).
Proof.
  unfold recycle. destruct (free (session f)); [now split|].
  unfold maybeShutdown.
  destruct f as [s ops n sep shut err]. simpl.
  destruct shut, sep; simpl;
    rewrite ?written_app, ?reads_app; simpl;
    rewrite ?written_app, ?reads_app; simpl;
    rewrite ?written_app, ?reads_app; simpl;
    rewrite ?written_app, ?reads_app; simpl;
    now rewrite ?app_nil_r.
Qed.

End RecycleProperties.

(** C3, as stated, fails. A server that has read a request with a body and
    answered it, on which a HEAD request was queued as well, is recycled:
    body, content length, inbound headers, the HEAD flag and the counters
    are all still there, and the session differs from a new one. *)
Lemma recycle_does_not_reset_session :
  exists f,
    run sample.E sample.P
        [readCompleted false sample.postRequest;
         readCompleted false ""; readCompleted false "";
         requestCalled "HEAD" "/" [] ""]
        (start sample.P (newFlow false true false)) = Some f
    /\ let s := session (recycle sample.P f) in
       content s = "hello"
       /\ contentLength s = 5
       /\ header (inbound s) = [("Content-Length", "5")]
       /\ isHEAD s = true
       /\ requests s = 1
       /\ replies s = 1
       /\ status s = stShutdown
       /\ free s = true
       /\ s <> newSessionData.
Proof.
  eexists. split; [vm_compute; reflexivity|].
  vm_compute. repeat split; try reflexivity. discriminate.
Qed.

(** C3, amended. After [recycle] on a session that is not free, the status
    is [stShutdown], [closeAfterSend] is false, the outbound queue and the
    input buffer are empty and the session is free; [errors] is one more
    when closing the connection left an error, and every other member, in
    particular the body, the content length, the inbound headers, the HEAD
    flag and the counters [requests] and [replies], is as the processor's
    recycle hook left it. So the session is never equal to a new one. *)
Theorem recycle_session (P : processor.t) (f : flow) :
  free (session f) = false ->
  let s0 := processor.recycle P (session f) in
  let s := session (recycle P f) in
  (status s = stShutdown /\ closeAfterSend s = false /\ outboundQueue s = []
   /\ input s = "" /\ free s = true)
  /\ errors s = (if closeError f then wrap (errors s0 + 1) else errors s0)
  /\ (content s = content s0 /\ contentLength s = contentLength s0
      /\ inbound s = inbound s0 /\ isHEAD s = isHEAD s0
      /\ requests s = requests s0 /\ replies s = replies s0
      /\ outbound s = outbound s0 /\ negotiated s = negotiated s0
      /\ inboundRequest s = inboundRequest s0
      /\ inboundStatus s = inboundStatus s0
      /\ writePending s = writePending s0)
  /\ s <> newSessionData.
Proof.
  intros Hfree s0 s. unfold s. rewrite (session_recycle P f Hfree).
  fold s0. simpl. repeat split. discriminate.
Qed.

Lemma recycle_session_witness :
  let f := onSession (request sample.E "HEAD" "/" [] "")
                     (newFlow false true true) in
  let s := session (recycle sample.P f) in
  status s = stShutdown /\ free s = true /\ isHEAD s = true
  /\ requests s = 1 /\ errors s = 1.
Proof.
  intros f s.
  destruct (recycle_session sample.P f eq_refl)
    as ((Hst & _ & _ & _ & Hfree) & Herr & (_ & _ & _ & Hhead & Hreq & _) & _).
  split; [exact Hst|]. split; [exact Hfree|].
  split; [exact Hhead|]. split; [exact Hreq | exact Herr].
Defined.



(** ** The flow: reading *)

(** C10. A read completion that arrives while the session is in
    [stShutdown] is ignored: [handleRead] returns the flow as it is, session
    and issued operations alike. This is the case after [recycle] has acted
    on a session, so a stale completion restarts nothing. *)
Theorem handleRead_shutdown_ignored (E : collaborators) (P : processor.t)
    (error : bool) (length : Z) (f : flow) :
  (status (session f) = stShutdown -> handleRead E P error length f = f)
  /\ (free (session f) = false ->
      handleRead E P error length (recycle P f) = recycle P f).
Proof.
  assert (H : forall g, status (session g) = stShutdown ->
                        handleRead E P error length g = g).
  { intros g Hg. unfold handleRead. now rewrite Hg. }
  split; [apply H|].
  intro Hfree. apply H. now rewrite (session_recycle P f Hfree).
Qed.

Lemma handleRead_shutdown_ignored_witness :
  let f := recycle sample.P (start sample.P (newFlow false true false)) in
  status (session f) = stShutdown
  /\ handleRead sample.E sample.P false 16 f = f
  /\ handleRead sample.E sample.P true 0 f = f.
Proof.
  intro f.
  split; [reflexivity|].
  split.
  - exact (proj1 (handleRead_shutdown_ignored sample.E sample.P false 16 f)
                 eq_refl).
  - exact (proj2 (handleRead_shutdown_ignored sample.E sample.P true 0
                    (start sample.P (newFlow false true false)))
                 eq_refl).
Defined.

Section VersionProperties.

Variable E : collaborators.
Variable P : processor.t.

(** A request line that ends in an error, by itself or by its version, is
    answered with 505 or 400 and the session goes on to [stProcessing]. *)
Lemma handleRead_request_error (length : Z) (f : flow) :
  status (session f) = stRequest ->
  let line := fst (buffer (session f)) in
  let rl := parseRequestLine E line in
  let sErr :=
    set_status stError (set_inboundRequest rl (snd (buffer (session f)))) in
  let code := if version_ge (requestVersion rl) limVersion
              then 505 else 400 in
  version_ge (requestVersion rl) limVersion = true
  \/ requestValid rl = false ->
  status (session (rejectVersion true (fst (absorbLine E P f))
                                 (snd (absorbLine E P f)))) = stError
  /\ handleRead E P false length f
     = onSession (set_status stProcessing)
         (send P (onSession (fun _ => errorReply E code sErr) f)).
Proof.
  intros Hst line rl sErr code Hcase.
  unfold handleRead, absorbLine. rewrite Hst.
  subst line rl sErr code.
  destruct (buffer (session f)) as [line s1]. cbn [fst snd] in *.
  cbn [status_eqb negb orb]. cbn -[send recycle errorReply version_ge].
  destruct (requestValid (parseRequestLine E line)) eqn:Hvalid;
    destruct (version_ge (requestVersion (parseRequestLine E line))
                         limVersion) eqn:Hver;
    cbn -[send recycle errorReply version_ge];
    try (destruct Hcase; congruence);
    unfold rejectVersion, answerLine;
    cbn -[send recycle errorReply version_ge];
    rewrite ?Hver; cbn -[send recycle errorReply version_ge];
    (split; [reflexivity|]);
    unfold continueRead; cbn -[send recycle errorReply version_ge];
    reflexivity.
Qed.

(** A status line with a version of 2.0 or more ends the session: the
    client does not reply. *)
Lemma handleRead_status_version (length : Z) (f : flow) :
  status (session f) = stStatus ->
  let line := fst (buffer (session f)) in
  let sl := parseStatusLine E line in
  version_ge (statusVersion sl) limVersion = true ->
  status (session (rejectVersion true (fst (absorbLine E P f))
                                 (snd (absorbLine E P f)))) = stError
  /\ handleRead E P false length f
     = recycle P
         (onSession (fun _ => set_status stError
                                (set_inboundStatus sl
                                   (snd (buffer (session f))))) f).
Proof.
  intros Hst line sl Hver.
  unfold handleRead, absorbLine. rewrite Hst.
  subst line sl.
  destruct (buffer (session f)) as [line s1]. cbn [fst snd] in *.
  cbn -[send recycle errorReply version_ge].
  unfold rejectVersion, answerLine.
  destruct (statusValid (parseStatusLine E line)) eqn:Hvalid;
    cbn -[send recycle errorReply version_ge];
    rewrite ?Hver; cbn -[send recycle errorReply version_ge];
    (split; [reflexivity|]);
    unfold continueRead; cbn -[send recycle errorReply version_ge];
    reflexivity.
Qed.

(** [buffer] takes from the input and changes nothing else. *)
Lemma buffer_session (s : sessionData) :
  snd (buffer s) = set_input (input (snd (buffer s))) s.
Proof.
  unfold buffer. destruct s as [st ? ? ? ? ? ? ? ? ? ? ? ? ? ? ? inp].
  cbn [status input].
  destruct st; try reflexivity;
    try (destruct (getline inp); reflexivity).
  match goal with |- context [if ?c then _ else _] => destruct c end;
    reflexivity.
Qed.

Lemma errorReply_queue (code : Z) (s : sessionData) :
  outboundQueue (errorReply E code s)
  = (outboundQueue s ++ [errorMessage E s code])%list
  /\ exists rest, errorMessage E s code = statusLineString E code ++ rest.
Proof.
  split; [reflexivity|].
  unfold errorMessage. rewrite generateReply_split.
  eexists. rewrite !append_assoc. reflexivity.
Qed.

(** When nothing is queued and no write is pending, [send] right after
    [errorReply] writes the error message. *)
Lemma send_errorReply (code : Z) (s : sessionData) (f : flow) :
  status s = stError -> outboundQueue s = [] -> writePending s = false ->
  written (issued (send P (onSession (fun _ => errorReply E code s) f)))
  = (written (issued f) ++ [errorMessage E s code])%list.
Proof.
  intros Hst Hq Hw. unfold send. cbn -[errorMessage].
  rewrite Hst, Hw, Hq. cbn -[errorMessage].
  now rewrite written_app.
Qed.

End VersionProperties.

(** C6. A request line or status line whose version is 2.0 or more puts the
    session into [stError] at the version check of the read completion,
    whether the line is valid or not. For a request line (the server) the
    error reply that is queued, and written when nothing else is, is a 505,
    and the session goes on to [stProcessing]; a request line that is
    invalid with a version below 2.0 gets a 400 the same way. For a status
    line (the client) no reply is queued and the session is recycled. *)
Theorem version_2_rejected (E : collaborators) (P : processor.t)
    (length : Z) (f : flow) :
  let line := fst (buffer (session f)) in
  let rest := snd (buffer (session f)) in
  let checked :=
    rejectVersion true (fst (absorbLine E P f)) (snd (absorbLine E P f)) in
  let answered code s :=
    handleRead E P false length f
    = onSession (set_status stProcessing)
        (send P (onSession (fun _ => errorReply E code s) f))
    /\ status (session (handleRead E P false length f)) = stProcessing
    /\ outboundQueue (errorReply E code s)
       = (outboundQueue (session f) ++ [errorMessage E s code])%list
    /\ (exists tail, errorMessage E s code = statusLineString E code ++ tail)
    /\ (outboundQueue (session f) = [] -> writePending (session f) = false ->
        written (issued (handleRead E P false length f))
        = (written (issued f) ++ [errorMessage E s code])%list) in
  (status (session f) = stRequest ->
   let rl := parseRequestLine E line in
   let sErr := set_status stError (set_inboundRequest rl rest) in
   (version_ge (requestVersion rl) limVersion = true ->
    status (session checked) = stError /\ answered 505 sErr)
   /\ (requestValid rl = false ->
       version_ge (requestVersion rl) limVersion = false ->
       status (session checked) = stError /\ answered 400 sErr))
  /\ (status (session f) = stStatus ->
      let sl := parseStatusLine E line in
      version_ge (statusVersion sl) limVersion = true ->
      status (session checked) = stError
      /\ handleRead E P false length f
         = recycle P (onSession (fun _ => set_status stError
                                            (set_inboundStatus sl rest)) f)).
Proof.
  intros line rest checked answered.
  split; [|intro Hst; apply (handleRead_status_version E P length f Hst)].
  intros Hst rl sErr.
  assert (Hanswer : forall code,
    code = (if version_ge (requestVersion rl) limVersion then 505 else 400) ->
    version_ge (requestVersion rl) limVersion = true
    \/ requestValid rl = false ->
    status (session checked) = stError /\ answered code sErr).
  { intros code -> Hcase.
    destruct (handleRead_request_error E P length f Hst Hcase) as (Hc & Hr).
    split; [exact Hc|]. unfold answered.
    fold line rl rest sErr in Hr. rewrite Hr.
    split; [reflexivity|]. split; [reflexivity|].
    assert (Hrest : outboundQueue sErr = outboundQueue (session f)
                    /\ writePending sErr = writePending (session f)).
    { unfold sErr, rest. rewrite buffer_session. split; reflexivity. }
    destruct Hrest as (Hq & Hw).
    destruct (errorReply_queue E (if version_ge (requestVersion rl) limVersion
                                  then 505 else 400) sErr) as (Hqueue & Hline).
    split; [now rewrite Hqueue, Hq|]. split; [exact Hline|].
    intros Hempty Hpending. cbn [issued onSession].
    apply send_errorReply; [reflexivity | congruence | congruence]. }
  split.
  - intro Hver. apply Hanswer; [now rewrite Hver | now left].
  - intros Hvalid Hver. apply Hanswer; [now rewrite Hver | now right].
Qed.

(** A server that is sent "GET / HTTP/2.0" answers 505, one that is sent a
    line that is no request line answers 400. *)
Lemma version_2_rejected_witness :
  let http2 :=
    onSession (set_input ("GET / HTTP/2.0" ++ CRLF))
              (start sample.P (newFlow false true false)) in
  let broken :=
    onSession (set_input ("hello" ++ CRLF))
              (start sample.P (newFlow false true false)) in
  written (issued (handleRead sample.E sample.P false 16 http2))
  = ["HTTP/1.1 505 HTTP Version Not Supported" ++ CRLF
     ++ "Connection: close" ++ CRLF ++ "Content-Length: 26" ++ CRLF
     ++ "Content-Type: text/plain" ++ CRLF ++ CRLF
     ++ "HTTP Version Not Supported"]
  /\ status (session (handleRead sample.E sample.P false 16 http2))
     = stProcessing
  /\ written (issued (handleRead sample.E sample.P false 7 broken))
     = ["HTTP/1.1 400 Bad Request" ++ CRLF
        ++ "Connection: close" ++ CRLF ++ "Content-Length: 11" ++ CRLF
        ++ "Content-Type: text/plain" ++ CRLF ++ CRLF ++ "Bad Request"].
Proof.
  intros http2 broken.
  destruct (version_2_rejected sample.E sample.P 16 http2) as (Hreq & _).
  destruct (Hreq eq_refl) as (H505 & _).
  destruct (H505 eq_refl) as (_ & _ & Hst & _ & _ & Hwritten).
  destruct (version_2_rejected sample.E sample.P 7 broken) as (Hreq' & _).
  destruct (Hreq' eq_refl) as (_ & H400).
  destruct (H400 eq_refl eq_refl) as (_ & _ & _ & _ & _ & Hwritten').
  split; [exact (Hwritten eq_refl eq_refl)|].
  split; [exact Hst | exact (Hwritten' eq_refl eq_refl)].
Defined.

(** ** The flow: writing *)

Lemma buffer_keeps (s : sessionData) :
  writePending (snd (buffer s)) = writePending s
  /\ body (snd (buffer s)) = body s
  /\ status (snd (buffer s)) = status s
  /\ outboundQueue (snd (buffer s)) = outboundQueue s.
Proof. rewrite buffer_session. repeat split. Qed.

Section WriteProperties.

Variable E : collaborators.
Variable P : processor.t.

Lemma oneWrite_onSession (g : sessionData -> sessionData) (f : flow) :
  writePending (g (session f)) = writePending (session f) ->
  oneWrite f -> oneWrite (onSession g f).
Proof. unfold oneWrite. flow_cbn. now intros ->. Qed.

Lemma oneWrite_issue (o : operation) (f : flow) :
  oneWrite f -> oneWrite (issue o f).
Proof. exact (fun H => H). Qed.

Lemma writePending_recycle (f : flow) :
  keeps writePending (processor.recycle P) ->
  writePending (session (recycle P f)) = writePending (session f).
Proof.
  intro Hk. destruct (free (session f)) eqn:Hfree.
  - now rewrite recycle_free.
  - rewrite (session_recycle P f Hfree). flow_cbn. apply Hk.
Qed.

Lemma oneWrite_recycle (f : flow) :
  keeps writePending (processor.recycle P) ->
  oneWrite f -> oneWrite (recycle P f).
Proof.
  intros Hk H. unfold oneWrite.
  now rewrite writesInFlight_recycle, writePending_recycle.
Qed.

(** [send] does nothing while a write is pending or after shutdown. *)
Lemma send_guarded (f : flow) :
  status (session f) = stShutdown \/ writePending (session f) = true ->
  send P f = f.
Proof.
  intros [H | H]; unfold send; rewrite H; [reflexivity|].
  now rewrite andb_false_r.
Qed.

(** Otherwise it writes the front of the queue. *)
Lemma send_front (f : flow) (msg : string) (rest : list string) :
  status (session f) <> stShutdown -> writePending (session f) = false ->
  outboundQueue (session f) = msg :: rest ->
  send P f
  = onSession (set_outboundQueue rest)
      (asyncWrite msg (onSession (set_writePending true) f)).
Proof.
  intros Hst Hw Hq. unfold send.
  apply status_eqb_neq in Hst. now rewrite Hst, Hw, Hq.
Qed.

Lemma send_twice (f : flow) : send P (send P f) = send P f.
Proof.
  assert (Hsame : forall g, send P f = g ->
                  (status (session g) = stShutdown
                   \/ writePending (session g) = true \/ g = f) ->
                  send P g = g).
  { intros g Hg [H | [H | H]].
    - apply send_guarded. now left.
    - apply send_guarded. now right.
    - now rewrite H in *. }
  apply Hsame; [reflexivity|]. unfold send.
  destruct (negb (status_eqb (status (session f)) stShutdown)
            && negb (writePending (session f))); [|now right; right].
  destruct (outboundQueue (session f)) as [|msg rest].
  - destruct (closeAfterSend (session f)); [|now right; right].
    destruct (free (session f)) eqn:Hfree.
    + right; right. now apply recycle_free.
    + left. now rewrite (session_recycle P f Hfree).
  - right; left. reflexivity.
Qed.

Lemma oneWrite_send (f : flow) :
  keeps writePending (processor.recycle P) ->
  oneWrite f -> oneWrite (send P f).
Proof.
  intros Hk H. unfold send.
  destruct (status_eqb (status (session f)) stShutdown);
    [exact H|].
  destruct (writePending (session f)) eqn:Hw; [exact H|].
  cbn [negb andb].
  destruct (outboundQueue (session f)) as [|msg rest].
  - destruct (closeAfterSend (session f)); [|exact H].
    now apply oneWrite_recycle.
  - unfold oneWrite in *. flow_cbn. now rewrite H, Hw.
Qed.

Lemma oneWrite_handleStart (f : flow) :
  keeps writePending (processor.recycle P) ->
  oneWrite f -> oneWrite (handleStart P f).
Proof.
  intros Hk H. unfold handleStart. apply oneWrite_send; [exact Hk|].
  destruct (status (session f)); try exact H.
  now apply oneWrite_recycle.
Qed.

Hypothesis HP : keepsWritePending P.

Lemma start_writePending : keeps writePending (processor.start P).
Proof. apply HP. Qed.

Lemma afterHeaders_writePending :
  keeps writePending (fun s => fst (processor.afterHeaders P s)).
Proof. apply HP. Qed.

Lemma handle_writePending : keeps writePending (processor.handle P).
Proof. apply HP. Qed.

Lemma afterProcessing_writePending :
  keeps writePending (fun s => fst (processor.afterProcessing P s)).
Proof. apply HP. Qed.

Lemma recycle_writePending : keeps writePending (processor.recycle P).
Proof. apply HP. Qed.

Lemma writePending_assignStatus
    (hook : sessionData -> sessionData * enum_status) (s : sessionData) :
  keeps writePending (fun s => fst (hook s)) ->
  writePending (assignStatus hook s) = writePending s.
Proof.
  intro Hk. unfold assignStatus. specialize (Hk s). cbv beta in Hk.
  destruct (hook s) as [s' st]. exact Hk.
Qed.

Lemma oneWrite_start (f : flow) : oneWrite f -> oneWrite (start P f).
Proof.
  intro H. unfold start.
  apply oneWrite_handleStart; [exact recycle_writePending|].
  apply oneWrite_onSession; [apply start_writePending | exact H].
Qed.

Lemma oneWrite_absorbLine (f : flow) :
  oneWrite f -> oneWrite (snd (absorbLine E P f)).
Proof.
  intro H. unfold absorbLine.
  destruct (buffer_keeps (session f)) as (Hw & _).
  destruct (status (session f)); try exact H;
    destruct (buffer (session f)) as [line s1]; cbn [fst snd] in *.
  - apply oneWrite_onSession; [exact Hw | exact H].
  - apply oneWrite_onSession; [exact Hw | exact H].
  - match goal with |- context [if ?c then _ else _] => destruct c end;
      cbn [snd].
    + apply oneWrite_onSession; [reflexivity|].
      apply oneWrite_send; [exact recycle_writePending|].
      apply oneWrite_onSession;
        [apply writePending_assignStatus, afterHeaders_writePending|].
      apply oneWrite_onSession; [exact Hw | exact H].
    + apply oneWrite_onSession; [exact Hw | exact H].
Qed.

Lemma oneWrite_rejectVersion (wasStart : bool) (v : version) (f : flow) :
  oneWrite f -> oneWrite (rejectVersion wasStart v f).
Proof.
  intro H. unfold rejectVersion.
  match goal with |- context [if ?c then _ else _] => destruct c end;
    [|exact H].
  apply oneWrite_onSession; [reflexivity | exact H].
Qed.

Lemma oneWrite_answerLine (wasRequest wasStart : bool) (v : version)
    (f : flow) :
  oneWrite f -> oneWrite (answerLine E P wasRequest wasStart v f).
Proof.
  intro H. unfold answerLine.
  destruct (wasStart && status_eqb (status (session f)) stHeader).
  - apply oneWrite_onSession; [reflexivity | exact H].
  - destruct (wasRequest && status_eqb (status (session f)) stError);
      [|exact H].
    apply oneWrite_onSession; [reflexivity|].
    apply oneWrite_send; [exact recycle_writePending|].
    apply oneWrite_onSession; [reflexivity | exact H].
Qed.

Lemma oneWrite_continueRead (f : flow) :
  oneWrite f -> oneWrite (continueRead P f).
Proof.
  intro H. unfold continueRead.
  destruct (buffer_keeps (session f)) as (Hw & _).
  destruct (status (session f)); try exact H.
  destruct (buffer (session f)) as [chunk s1]; cbn [fst snd] in *.
  match goal with |- context [if ?c then _ else _] => destruct c end.
  - apply oneWrite_handleStart; [exact recycle_writePending|].
    apply oneWrite_onSession;
      [apply writePending_assignStatus, afterProcessing_writePending|].
    apply oneWrite_onSession; [apply handle_writePending|].
    apply oneWrite_onSession; [reflexivity|].
    apply oneWrite_onSession; [exact Hw | exact H].
  - apply oneWrite_onSession; [exact Hw | exact H].
Qed.

Lemma oneWrite_handleRead (error : bool) (length : Z) (f : flow) :
  oneWrite f -> oneWrite (handleRead E P error length f).
Proof.
  intro H. unfold handleRead.
  destruct (status_eqb (status (session f)) stShutdown); [exact H|].
  match goal with
  | |- context [absorbLine E P ?g] =>
      assert (Hg : oneWrite g)
        by (destruct error;
            [apply oneWrite_onSession; [reflexivity | exact H] | exact H]);
      generalize (oneWrite_absorbLine g Hg);
      destruct (absorbLine E P g) as [v f1]
  end.
  cbn [snd]. intro H1.
  match goal with
  | |- context [continueRead P ?g] =>
      assert (Hc : oneWrite (continueRead P g))
        by (apply oneWrite_continueRead, oneWrite_answerLine,
              oneWrite_rejectVersion, H1)
  end.
  match goal with |- context [if ?c then _ else _] => destruct c end;
    [apply oneWrite_recycle; [exact recycle_writePending | exact Hc]
    | exact Hc].
Qed.

Lemma oneWrite_handleWrite (error : bool) (f : flow) :
  oneWrite f -> (0 < writesInFlight f)%nat ->
  oneWrite (handleWrite P error (writeDone f)).
Proof.
  intros H Hpos. unfold handleWrite.
  assert (H0 : oneWrite (onSession (set_writePending false) (writeDone f))).
  { unfold oneWrite in *. flow_cbn.
    destruct (writePending (session f)); rewrite H in *; [reflexivity|].
    lia. }
  match goal with
  | |- context [if error || _ then recycle P ?g else _] =>
      assert (Hg : oneWrite g)
  end.
  { destruct error; cbn [negb]; [exact H0|].
    apply oneWrite_send; [exact recycle_writePending|].
    match goal with |- context [if ?c then _ else _] => destruct c end;
      [|exact H0].
    apply oneWrite_onSession;
      [apply writePending_assignStatus, afterProcessing_writePending
       | exact H0]. }
  match goal with |- context [if ?c then _ else _] => destruct c end;
    [apply oneWrite_recycle; [exact recycle_writePending | exact Hg]
    | exact Hg].
Qed.

(** At most one write is in flight in every state of a started flow. *)
Lemma reachable_oneWrite (f : flow) : reachable E P f -> oneWrite f.
Proof.
  induction 1 as [sep shut err | e f f' Hr IH Hstep].
  - apply oneWrite_start. reflexivity.
  - destruct e as [error data | error | | st b h | m r h b];
      cbn [deliver] in Hstep.
    + injection Hstep as <-. apply oneWrite_handleRead.
      apply oneWrite_onSession; [reflexivity | exact IH].
    + destruct (writesInFlight f) eqn:Hn; [discriminate|].
      injection Hstep as <-. apply oneWrite_handleWrite; [exact IH | lia].
    + injection Hstep as <-.
      apply oneWrite_send; [exact recycle_writePending | exact IH].
    + injection Hstep as <-.
      apply oneWrite_onSession; [reflexivity | exact IH].
    + injection Hstep as <-.
      apply oneWrite_onSession; [reflexivity | exact IH].
Qed.

(** Two replies queued on an idle session are written in their order. *)
Lemma two_replies_in_order (f : flow) (st1 st2 : Z) (b1 b2 : string)
    (h1 h2 : headers) :
  goesOn P -> idle f ->
  let f1 := onSession (reply E st1 b1 h1) f in
  let f2 := onSession (reply E st2 b2 h2) f1 in
  let R1 := generateReply E (session f) st1 b1 h1 in
  let R2 := generateReply E (session f1) st2 b2 h2 in
  exists f3 f4,
    deliver E P sendCalled f2 = Some f3
    /\ written (issued f3) = (written (issued f) ++ [R1])%list
    /\ writesInFlight f3 = 1%nat
    /\ deliver E P (writeCompleted false) f3 = Some f4
    /\ written (issued f4) = (written (issued f) ++ [R1; R2])%list
    /\ writesInFlight f4 = 1%nat
    /\ outboundQueue (session f4) = [].
Proof.
  intros Hgo (Hq & Hw & Hn & Hst) f1 f2 R1 R2.
  assert (Hq2 : outboundQueue (session f2) = [R1; R2]).
  { unfold f2, f1, reply. flow_cbn. now rewrite Hq. }
  assert (Hsend : send P f2
                  = onSession (set_outboundQueue [R2])
                      (asyncWrite R1 (onSession (set_writePending true) f2)))
    by (apply send_front; [exact Hst | exact Hw | exact Hq2]).
  assert (Hf2 : issued f2 = issued f /\ writesInFlight f2 = 0%nat
                /\ status (session f2) = status (session f))
    by (repeat split; exact Hn).
  destruct Hf2 as (Hi2 & Hn2 & Hst2).
  clearbody f2 R1 R2. clear f1 Hq Hw Hn.
  eexists. eexists.
  split; [reflexivity|]. rewrite Hsend.
  split; [flow_cbn; now rewrite written_app, Hi2|].
  split; [flow_cbn; now rewrite Hn2|].
  cbn [deliver writesInFlight onSession asyncWrite].
  split; [reflexivity|].
  unfold handleWrite. cbn [negb orb].
  match goal with
  | |- context [send P ?g] =>
      assert (Hg : status (session g) <> stShutdown
                   /\ writePending (session g) = false
                   /\ outboundQueue (session g) = [R2]
                   /\ written (issued g)
                      = (written (issued f) ++ [R1])%list
                   /\ writesInFlight g = 0%nat)
  end.
  { match goal with |- context [if ?c then _ else _] => destruct c end.
    - flow_cbn. unfold assignStatus.
      match goal with
      | |- context [processor.afterProcessing P ?s] =>
          destruct (Hgo s) as (Hgq & Hgw & Hgs);
          destruct (processor.afterProcessing P s) as [s' st']
      end.
      flow_cbn. rewrite written_app, Hi2, Hn2.
      repeat split; assumption.
    - flow_cbn. rewrite written_app, Hi2, Hn2, Hst2.
      repeat split; assumption. }
  destruct Hg as (Hgst & Hgw & Hgq & Hgwr & Hgn).
  rewrite (send_front _ R2 [] Hgst Hgw Hgq).
  flow_cbn. apply status_eqb_neq in Hgst. rewrite Hgst.
  flow_cbn. rewrite written_app, Hgwr, Hgn, <- app_assoc.
  repeat split.
Qed.

End WriteProperties.

(** C8. Writes on a session are one at a time and in the order of the
    queue. [send] does nothing while [writePending] is set or the status is
    [stShutdown]; otherwise it hands the front of the queue to one write,
    takes it off the queue and sets [writePending], so a [send] right after
    a [send] does nothing. With a processor that leaves [writePending] to
    the flow, every state of a started flow has at most one write in
    flight, and exactly one while [writePending] is set. Two replies queued
    on an idle session are written in the order in which they were queued,
    the second after the completion of the first. *)
Theorem writes_serialized_fifo (E : collaborators) (P : processor.t) :
  (forall f,
      status (session f) = stShutdown \/ writePending (session f) = true ->
      send P f = f)
  /\ (forall f msg rest,
        status (session f) <> stShutdown ->
        writePending (session f) = false ->
        outboundQueue (session f) = msg :: rest ->
        written (issued (send P f)) = (written (issued f) ++ [msg])%list
        /\ outboundQueue (session (send P f)) = rest
        /\ writePending (session (send P f)) = true
        /\ writesInFlight (send P f) = S (writesInFlight f))
  /\ (forall f, send P (send P f) = send P f)
  /\ (keepsWritePending P ->
      forall f, reachable E P f ->
        (writesInFlight f <= 1)%nat
        /\ (writesInFlight f = 1%nat <-> writePending (session f) = true))
  /\ (goesOn P ->
      forall f st1 b1 h1 st2 b2 h2, idle f ->
        let f1 := onSession (reply E st1 b1 h1) f in
        let f2 := onSession (reply E st2 b2 h2) f1 in
        let R1 := generateReply E (session f) st1 b1 h1 in
        let R2 := generateReply E (session f1) st2 b2 h2 in
        exists f3 f4,
          deliver E P sendCalled f2 = Some f3
          /\ written (issued f3) = (written (issued f) ++ [R1])%list
          /\ writesInFlight f3 = 1%nat
          /\ deliver E P (writeCompleted false) f3 = Some f4
          /\ written (issued f4) = (written (issued f) ++ [R1; R2])%list
          /\ writesInFlight f4 = 1%nat
          /\ outboundQueue (session f4) = []).
Proof.
  split; [apply send_guarded|].
  split.
  { intros f msg rest Hst Hw Hq. rewrite (send_front P f msg rest Hst Hw Hq).
    flow_cbn. rewrite written_app. repeat split. }
  split; [apply send_twice|].
  split.
  { intros HP f Hr. assert (H := reachable_oneWrite E P HP f Hr).
    unfold oneWrite in H. rewrite H.
    destruct (writePending (session f)); split; try lia;
      split; congruence. }
  intros Hgo f st1 b1 h1 st2 b2 h2 Hidle.
  now apply two_replies_in_order.
Qed.

Lemma sample_keepsWritePending : keepsWritePending sample.P.
Proof. repeat split. Qed.

Lemma sample_goesOn : goesOn sample.P.
Proof. intro s. repeat split. discriminate. Qed.

(** The sample server, right after its start, is sent a 200 and a 404. *)
Lemma writes_serialized_fifo_witness :
  let f := start sample.P (newFlow false true false) in
  let f2 := onSession (reply sample.E 404 "gone" [])
              (onSession (reply sample.E 200 "ok" []) f) in
  (writesInFlight f <= 1)%nat
  /\ exists f3 f4,
       deliver sample.E sample.P sendCalled f2 = Some f3
       /\ deliver sample.E sample.P (writeCompleted false) f3 = Some f4
       /\ written (issued f4)
          = ["HTTP/1.1 200 OK" ++ CRLF ++ "Content-Length: 2" ++ CRLF ++ CRLF
             ++ "ok";
             "HTTP/1.1 404 Not Found" ++ CRLF ++ "Connection: close" ++ CRLF
             ++ "Content-Length: 4" ++ CRLF ++ CRLF ++ "gone"]
       /\ send sample.P f3 = f3.
Proof.
  intros f f2.
  destruct (writes_serialized_fifo sample.E sample.P)
    as (Hguard & _ & _ & Hone & Hfifo).
  split.
  - apply (Hone sample_keepsWritePending f). apply reachable_start.
  - assert (Hidle : idle f)
      by (repeat split; try reflexivity; discriminate).
    destruct (Hfifo sample_goesOn f 200 "ok" [] 404 "gone" [] Hidle)
      as (f3 & f4 & H3 & _ & _ & H4 & Hw & _).
    exists f3, f4. split; [exact H3|]. split; [exact H4|].
    split; [exact Hw|].
    apply Hguard. right.
    cbn [deliver] in H3. injection H3 as <-. reflexivity.
Defined.

(** ** The flow: the body *)

Lemma size_take (n : nat) (s : string) :
  size (take n s) = Z.min (Z.of_nat n) (size s).
Proof.
  unfold size. revert s. induction n as [|n IH]; intros [|c r]; simpl;
    try lia.
  specialize (IH r). lia.
Qed.

Lemma remainingBytes_within (s : sessionData) :
  bodyWithin s ->
  remainingBytes s = contentLength s - size (content s)
  /\ 0 <= remainingBytes s.
Proof.
  intros (Hrange & Hle). unfold remainingBytes, wrap.
  assert (Hs := size_nonneg (content s)).
  rewrite Z.mod_small by lia. lia.
Qed.

(** A body read takes what remains, or what the input holds if that is
    less. *)
Lemma buffer_chunk (s : sessionData) :
  status s = stContent -> bodyWithin s ->
  size (fst (buffer s)) = Z.min (remainingBytes s) (size (input s)).
Proof.
  intros Hst Hin. destruct (remainingBytes_within s Hin) as (Hrem & Hpos).
  assert (Hinp := size_nonneg (input s)).
  unfold buffer. rewrite Hst.
  destruct (remainingBytes s >? 0) eqn:Hgt; cbn [fst].
  - rewrite size_take, Z2Nat.id by lia. lia.
  - change (size "") with 0. lia.
Qed.

Section BodyProperties.

Variable E : collaborators.
Variable P : processor.t.

Hypothesis HP : keepsBody P.

Lemma start_body : keeps body (processor.start P).
Proof. apply HP. Qed.

Lemma handle_body : keeps body (processor.handle P).
Proof. apply HP. Qed.

Lemma afterProcessing_body :
  keeps body (fun s => fst (processor.afterProcessing P s)).
Proof. apply HP. Qed.

Lemma recycle_body : keeps body (processor.recycle P).
Proof. apply HP. Qed.

Lemma afterHeaders_contentLength (s : sessionData) :
  0 <= contentLength (fst (processor.afterHeaders P s)) < size_max.
Proof. apply HP. Qed.

Lemma body_recycle (f : flow) :
  body (session (recycle P f)) = body (session f).
Proof.
  destruct (free (session f)) eqn:Hfree.
  - now rewrite recycle_free.
  - rewrite (session_recycle P f Hfree). apply recycle_body.
Qed.

Lemma body_send (f : flow) : body (session (send P f)) = body (session f).
Proof.
  unfold send.
  destruct (negb (status_eqb (status (session f)) stShutdown)
            && negb (writePending (session f))); [|reflexivity].
  destruct (outboundQueue (session f)); [|reflexivity].
  destruct (closeAfterSend (session f)); [|reflexivity].
  apply body_recycle.
Qed.

Lemma body_handleStart (f : flow) :
  body (session (handleStart P f)) = body (session f).
Proof.
  unfold handleStart. rewrite body_send.
  destruct (status (session f)); try reflexivity. apply body_recycle.
Qed.

Lemma body_assignStatus (s : sessionData) :
  body (assignStatus (processor.afterProcessing P) s) = body s.
Proof.
  unfold assignStatus. assert (Hk := afterProcessing_body s).
  cbv beta in Hk.
  now destruct (processor.afterProcessing P s).
Qed.

Lemma bodyWithin_body (s s' : sessionData) :
  body s' = body s -> bodyWithin s -> bodyWithin s'.
Proof.
  unfold body, bodyWithin. intro H. injection H as Hc Hl.
  now rewrite Hc, Hl.
Qed.

Lemma within_absorbLine (f : flow) :
  bodyWithin (session f) ->
  bodyWithin (session (snd (absorbLine E P f))).
Proof.
  intro H. unfold absorbLine.
  destruct (buffer_keeps (session f)) as (_ & Hb & _).
  destruct (status (session f)); try exact H;
    destruct (buffer (session f)) as [line s1]; cbn [fst snd] in *.
  - apply (bodyWithin_body (session f)); [exact Hb | exact H].
  - apply (bodyWithin_body (session f)); [exact Hb | exact H].
  - match goal with |- context [if ?c then _ else _] => destruct c end;
      cbn [snd].
    + cbn [session onSession].
      match goal with
      | |- bodyWithin (set_content "" (session (send P ?g))) =>
          assert (Hl : 0 <= contentLength (session (send P g)) < size_max)
      end.
      { assert (Hsend := body_send
                  (onSession (assignStatus (processor.afterHeaders P))
                     (onSession (fun _ => set_inbound
                                            (absorb E line (inbound s1)) s1)
                                f))).
        unfold body in Hsend. injection Hsend as _ ->.
        cbn [session onSession]. unfold assignStatus.
        match goal with
        | |- context [processor.afterHeaders P ?s] =>
            assert (Hk := afterHeaders_contentLength s);
            destruct (processor.afterHeaders P s)
        end.
        exact Hk. }
      unfold bodyWithin. cbn [content contentLength set_content].
      change (size "") with 0. lia.
    + apply (bodyWithin_body (session f)); [exact Hb | exact H].
Qed.

Lemma body_rejectVersion (wasStart : bool) (v : version) (f : flow) :
  body (session (rejectVersion wasStart v f)) = body (session f).
Proof.
  unfold rejectVersion.
  now match goal with |- context [if ?c then _ else _] => destruct c end.
Qed.

Lemma body_answerLine (wasRequest wasStart : bool) (v : version)
    (f : flow) :
  body (session (answerLine E P wasRequest wasStart v f))
  = body (session f).
Proof.
  unfold answerLine.
  destruct (wasStart && status_eqb (status (session f)) stHeader);
    [reflexivity|].
  destruct (wasRequest && status_eqb (status (session f)) stError);
    [|reflexivity].
  cbn [session onSession]. unfold body at 1.
  cbn [content contentLength set_status]. fold (body (session (send P
    (onSession (errorReply E (if version_ge v limVersion then 505 else 400))
               f)))).
  now rewrite body_send.
Qed.

Lemma within_continueRead (f : flow) :
  bodyWithin (session f) -> bodyWithin (session (continueRead P f)).
Proof.
  intro H. unfold continueRead.
  destruct (status (session f)) eqn:Hst; try exact H.
  assert (Hchunk := buffer_chunk (session f) Hst H).
  destruct (remainingBytes_within (session f) H) as (Hrem & Hpos).
  destruct (buffer_keeps (session f)) as (_ & Hb & _).
  destruct (buffer (session f)) as [chunk s1]; cbn [fst snd] in *.
  unfold body in Hb. injection Hb as Hc Hl.
  assert (Hnew : bodyWithin (set_content (content s1 ++ chunk) s1)).
  { destruct H as (Hrange & Hle). unfold bodyWithin.
    cbn [content contentLength set_content].
    rewrite size_append, Hc, Hl. lia. }
  match goal with |- context [if ?c then _ else _] => destruct c end.
  - apply (bodyWithin_body (set_content (content s1 ++ chunk) s1));
      [|exact Hnew].
    rewrite body_handleStart. cbn [session onSession].
    rewrite body_assignStatus, handle_body. reflexivity.
  - exact Hnew.
Qed.

Lemma within_handleRead (error : bool) (length : Z) (f : flow) :
  bodyWithin (session f) ->
  bodyWithin (session (handleRead E P error length f)).
Proof.
  intro H. unfold handleRead.
  destruct (status_eqb (status (session f)) stShutdown); [exact H|].
  match goal with
  | |- context [absorbLine E P ?g] =>
      assert (Hg : bodyWithin (session g)) by (now destruct error);
      generalize (within_absorbLine g Hg);
      destruct (absorbLine E P g) as [v f1]
  end.
  cbn [snd]. intro H1.
  match goal with
  | |- context [continueRead P ?g] =>
      assert (Hc : bodyWithin (session (continueRead P g)))
  end.
  { apply within_continueRead.
    eapply bodyWithin_body; [|exact H1].
    now rewrite body_answerLine, body_rejectVersion. }
  match goal with |- context [if ?c then _ else _] => destruct c end;
    [|exact Hc].
  eapply bodyWithin_body; [apply body_recycle | exact Hc].
Qed.

Lemma within_handleWrite (error : bool) (f : flow) :
  bodyWithin (session f) -> bodyWithin (session (handleWrite P error f)).
Proof.
  intro H. unfold handleWrite.
  match goal with
  | |- context [if error || _ then recycle P ?g else _] =>
      assert (Hg : body (session g) = body (session f))
  end.
  { destruct error; cbn [negb]; [reflexivity|].
    rewrite body_send.
    match goal with |- context [if ?c then _ else _] => destruct c end;
      [|reflexivity].
    cbn [session onSession]. now rewrite body_assignStatus. }
  match goal with |- context [if ?c then _ else _] => destruct c end.
  - eapply bodyWithin_body; [|exact H]. now rewrite body_recycle.
  - eapply bodyWithin_body; [exact Hg | exact H].
Qed.

(** The body buffer never grows past the expected length. *)
Lemma reachable_within (f : flow) :
  reachable E P f -> bodyWithin (session f).
Proof.
  induction 1 as [sep shut err | e f f' Hr IH Hstep].
  - unfold start. eapply bodyWithin_body.
    + rewrite body_handleStart. cbn [session onSession]. apply start_body.
    + unfold bodyWithin.
      cbn [session newFlow newSessionData content contentLength].
      change (size "") with 0. unfold size_max. lia.
  - destruct e as [error data | error | | st b h | m r h b];
      cbn [deliver] in Hstep.
    + injection Hstep as <-. now apply within_handleRead.
    + destruct (writesInFlight f); [discriminate|].
      injection Hstep as <-. now apply within_handleWrite.
    + injection Hstep as <-.
      eapply bodyWithin_body; [apply body_send | exact IH].
    + now injection Hstep as <-.
    + now injection Hstep as <-.
Qed.

End BodyProperties.

(** C5. With a processor that leaves the body buffer to the flow and sets
    the content length after the headers, in every state of a started flow
    [remainingBytes] is the exact difference of the content length and the
    size of the body buffer and is not negative: the buffer never grows past
    the expected length, since a body read takes the smaller of
    [remainingBytes] and the size of the input. *)
Theorem remainingBytes_exact (E : collaborators) (P : processor.t)
    (f : flow) :
  keepsBody P -> reachable E P f ->
  let s := session f in
  remainingBytes s = contentLength s - size (content s)
  /\ 0 <= remainingBytes s
  /\ size (content s) <= contentLength s
  /\ (status s = stContent ->
      size (fst (buffer s)) = Z.min (remainingBytes s) (size (input s))).
Proof.
  intros HP Hr s.
  assert (Hin := reachable_within E P HP f Hr). fold s in Hin.
  destruct (remainingBytes_within s Hin) as (Hrem & Hpos).
  split; [exact Hrem|]. split; [exact Hpos|].
  split; [apply Hin|].
  intro Hst. now apply buffer_chunk.
Qed.

Lemma sample_keepsBody : keepsBody sample.P.
Proof.
  unfold keepsBody, keeps.
  split; [intro s; reflexivity|].
  split; [intro s; reflexivity|].
  split; [intro s; reflexivity|].
  split; [intro s; reflexivity|].
  intro s.
  cbn [processor.afterHeaders sample.P fst contentLength set_contentLength].
  assert (0 < size_max) by (unfold size_max; lia).
  destruct (find "Content-Length" (header (inbound s))) as [v|]; [|lia].
  destruct (sample.decimal v) as [n|]; [|lia].
  now apply Z.mod_pos_bound.
Qed.

(** The sample server has read the headers of a request with a body of five
    bytes, and three of them. *)
Lemma remainingBytes_exact_witness :
  let arrived (data : string) (f : flow) :=
    handleRead sample.E sample.P false (size data)
      (onSession (fun s => set_input (input s ++ data) s) f) in
  let f :=
    arrived "" (arrived ""
      (arrived ("POST /form HTTP/1.1" ++ CRLF ++ "Content-Length: 5" ++ CRLF
                ++ CRLF ++ "hel")
               (start sample.P (newFlow false true false)))) in
  content (session f) = "hel"
  /\ contentLength (session f) = 5
  /\ remainingBytes (session f) = 5 - size (content (session f))
  /\ 0 <= remainingBytes (session f).
Proof.
  intros arrived f.
  assert (Hstep : forall data g,
    reachable sample.E sample.P g ->
    reachable sample.E sample.P (arrived data g)).
  { intros data g Hg.
    apply (reachable_step sample.E sample.P (readCompleted false data) g);
      [exact Hg | reflexivity]. }
  assert (Hr : reachable sample.E sample.P f).
  { unfold f. do 3 apply Hstep. apply reachable_start. }
  destruct (remainingBytes_exact sample.E sample.P f sample_keepsBody Hr)
    as (Hexact & Hpos & _).
  assert (Hc : content (session f) = "hel") by (vm_compute; reflexivity).
  assert (Hl : contentLength (session f) = 5) by (vm_compute; reflexivity).
  split; [exact Hc|]. split; [exact Hl|].
  split; [|exact Hpos].
  rewrite Hexact, Hl. reflexivity.
Defined.

(** ** Further properties of the session *)

Lemma getline_split (buf : string) :
  occurs newline (fst (getline buf)) = false
  /\ (if occurs newline buf
      then buf = fst (getline buf) ++ String newline (snd (getline buf))
      else fst (getline buf) = buf /\ snd (getline buf) = "").
Proof.
  induction buf as [|c r IH]; simpl.
  - repeat split.
  - destruct (Ascii.eqb_spec c newline) as [->|Hne]; simpl.
    + split; reflexivity.
    + destruct (getline r) as [l rest]. simpl in *.
      destruct IH as (Hl & Hsplit).
      destruct (Ascii.eqb_spec c newline) as [Heq|_]; [contradiction|].
      simpl. split; [exact Hl|].
      destruct (occurs newline r).
      * now rewrite Hsplit at 1.
      * destruct Hsplit as (-> & ->). now split.
Qed.

(** X1. While a line, status line or header is expected, [buffer] returns the
    input up to the first newline, without it, and leaves what follows the
    newline in the input; an input without a newline is returned whole.
    Nothing else of the session changes. *)
Theorem buffer_line (s : sessionData) :
  readsLine (status s) = true ->
  let line := fst (buffer s) in
  let rest := input (snd (buffer s)) in
  occurs newline line = false
  /\ (if occurs newline (input s)
      then input s = line ++ String newline rest
      else line = input s /\ rest = "")
  /\ snd (buffer s) = set_input rest s.
Proof.
  intros Hst line rest.
  assert (Hb : buffer s = (fst (getline (input s)),
                           set_input (snd (getline (input s))) s)).
  { unfold buffer.
    destruct (status s); try discriminate;
      now destruct (getline (input s)). }
  unfold line, rest. rewrite Hb. cbn [fst snd input set_input].
  destruct (getline_split (input s)) as (Hl & Hsplit).
  split; [exact Hl|]. split; [exact Hsplit | reflexivity].
Qed.

Lemma buffer_line_witness :
  let s := set_input ("GET / HTTP/1.1" ++ CRLF ++ "Host: x" ++ CRLF)
                     newSessionData in
  fst (buffer s) = "GET / HTTP/1.1" ++ String "013" ""
  /\ input s
     = fst (buffer s) ++ String newline (input (snd (buffer s)))
  /\ input (snd (buffer s)) = "Host: x" ++ CRLF.
Proof.
  intro s. destruct (buffer_line s eq_refl) as (_ & Hsplit & _).
  split; [reflexivity|]. split; [exact Hsplit | reflexivity].
Defined.

Lemma take_drop (n : nat) (buf : string) : take n buf ++ drop n buf = buf.
Proof.
  revert buf. induction n as [|n IH]; intros [|c r]; simpl;
    try reflexivity.
  now rewrite IH.
Qed.

Lemma remainingBytes_range (s : sessionData) :
  0 <= remainingBytes s < size_max.
Proof.
  unfold remainingBytes, wrap. apply Z.mod_pos_bound.
  unfold size_max. lia.
Qed.

(** X2. While the body is read, [buffer] splits the input: it returns the
    first min(remainingBytes, input size) bytes and leaves the rest in the
    input, whatever the state of the body buffer. In [stProcessing],
    [stError] and [stShutdown] it takes nothing. *)
Theorem buffer_body (s : sessionData) :
  (status s = stContent ->
   fst (buffer s) ++ input (snd (buffer s)) = input s
   /\ size (fst (buffer s)) = Z.min (remainingBytes s) (size (input s))
   /\ snd (buffer s) = set_input (input (snd (buffer s))) s)
  /\ (readsLine (status s) = false -> status s <> stContent ->
      buffer s = ("", s)).
Proof.
  split.
  - intro Hst. split; [|split; [|apply buffer_session]].
    + unfold buffer. rewrite Hst.
      destruct (remainingBytes s >? 0); cbn [fst snd input set_input];
        [apply take_drop | reflexivity].
    + assert (Hr := remainingBytes_range s).
      assert (Hi := size_nonneg (input s)).
      unfold buffer. rewrite Hst.
      destruct (remainingBytes s >? 0) eqn:Hgt; cbn [fst].
      * rewrite size_take, Z2Nat.id by lia. lia.
      * change (size "") with 0. lia.
  - intros Hline Hbody. unfold buffer.
    destruct (status s); try discriminate; try reflexivity.
    contradiction.
Qed.

Lemma buffer_body_witness :
  let s := set_input "hello, world"
             (set_contentLength 5 (set_status stContent newSessionData)) in
  fst (buffer s) = "hello"
  /\ fst (buffer s) ++ input (snd (buffer s)) = "hello, world"
  /\ buffer (set_status stProcessing s) = ("", set_status stProcessing s).
Proof.
  intro s. destruct (buffer_body s) as (Hbody & _).
  destruct (Hbody eq_refl) as (Hsplit & _).
  destruct (buffer_body (set_status stProcessing s)) as (_ & Hidle).
  split; [reflexivity|]. split; [exact Hsplit|].
  apply Hidle; [reflexivity | discriminate].
Defined.

(** X3. [trigger405] is true exactly when some method that was seen is not one
    of the methods that are valid for every resource; so it is false for no
    methods at all. *)
Theorem trigger405_iff (non405method methods : list string) :
  trigger405 non405method methods = true
  <-> exists m, In m methods /\ ~ In m non405method.
Proof.
  assert (Hmem : forall m,
    existsb (String.eqb m) non405method = true <-> In m non405method).
  { intro m. rewrite existsb_exists. split.
    - intros (x & Hin & Heq). apply String.eqb_eq in Heq. now subst.
    - intro Hin. exists m. split; [exact Hin | apply String.eqb_refl]. }
  induction methods as [|m r IH]; simpl.
  - split; [discriminate | intros (m & [] & _)].
  - destruct (existsb (String.eqb m) non405method) eqn:Hm; simpl.
    + rewrite IH. apply Hmem in Hm. split.
      * intros (x & Hin & Hout). exists x. split; [now right | exact Hout].
      * intros (x & [<- | Hin] & Hout); [contradiction|].
        exists x. now split.
    + split; [|reflexivity]. intros _. exists m. split; [now left|].
      intro Hin. apply Hmem in Hin. congruence.
Qed.

Lemma trigger405_examples :
  trigger405 ["OPTIONS"; "TRACE"] [] = false
  /\ trigger405 ["OPTIONS"; "TRACE"] ["OPTIONS"; "TRACE"] = false
  /\ trigger405 ["OPTIONS"; "TRACE"] ["GET"; "OPTIONS"] = true
  /\ trigger405 ["OPTIONS"; "TRACE"] ["options"] = true.
Proof. repeat split. Qed.

Lemma wrap_wrap_add (a b : Z) : wrap (wrap a + b) = wrap (a + b).
Proof. unfold wrap. apply Z.add_mod_idemp_l. unfold size_max. lia. Qed.

Lemma deliver_enqueue (E : collaborators) (P : processor.t) (e : event)
    (f : flow) :
  enqueues e = true ->
  exists g msg,
    deliver E P e f = Some g
    /\ issued g = issued f /\ writesInFlight g = writesInFlight f
    /\ outboundQueue (session g) = (outboundQueue (session f) ++ [msg])%list
    /\ queries (session g) = wrap (queries (session f) + 1)
    /\ status (session g) = status (session f)
    /\ writePending (session g) = writePending (session f).
Proof.
  destruct e as [| | | st b h | m r h b]; try discriminate; intros _;
    eexists; eexists; cbn [deliver];
    (split; [reflexivity|]); (split; [reflexivity|]);
    (split; [reflexivity|]); (split; [reflexivity|]);
    (split; [|split; reflexivity]);
    unfold queries, reply, request; flow_cbn.
  - rewrite wrap_wrap_add, wrap_wrap_add. f_equal. lia.
  - rewrite Z.add_comm, wrap_wrap_add, wrap_wrap_add. f_equal. lia.
Qed.

(** X4. Calls of [reply] and [request] only queue: after any number of them the
    queue is the old queue followed by one message per call, [queries] has
    grown by the number of calls (in [std::size_t]), and nothing was handed
    to the connections; the status and the write flag are as before. *)
Theorem enqueue_only_queues (E : collaborators) (P : processor.t)
    (es : list event) (f : flow) :
  forallb enqueues es = true ->
  exists g new,
    run E P es f = Some g
    /\ outboundQueue (session g) = (outboundQueue (session f) ++ new)%list
    /\ List.length new = List.length es
    /\ queries (session g)
       = wrap (queries (session f) + Z.of_nat (List.length es))
    /\ issued g = issued f
    /\ writesInFlight g = writesInFlight f
    /\ status (session g) = status (session f)
    /\ writePending (session g) = writePending (session f).
Proof.
  revert f. induction es as [|e r IH]; intros f Hall.
  - exists f, []. cbn [run List.length]. rewrite app_nil_r.
    repeat split. unfold queries, wrap.
    rewrite Z.add_0_r, Z.mod_mod; [reflexivity | unfold size_max; lia].
  - cbn [forallb] in Hall. apply andb_prop in Hall.
    destruct Hall as (He & Hr).
    destruct (deliver_enqueue E P e f He)
      as (f1 & msg & Hd & Hi & Hn & Hq & Hqs & Hst & Hw).
    destruct (IH f1 Hr)
      as (g & new & Hrun & Hq' & Hlen & Hqs' & Hi' & Hn' & Hst' & Hw').
    exists g, (msg :: new). cbn [run]. rewrite Hd.
    split; [exact Hrun|].
    split; [rewrite Hq', Hq, <- app_assoc; reflexivity|].
    split; [cbn [List.length]; now rewrite Hlen|].
    split.
    { rewrite Hqs', Hqs, wrap_wrap_add. f_equal.
      cbn [List.length]. lia. }
    repeat split; congruence.
Qed.

Lemma enqueue_only_queues_witness :
  exists g,
    run sample.E sample.P
        [replyCalled 200 "ok" []; requestCalled "GET" "/" [] "";
         replyCalled 404 "gone" []]
        (newFlow false true false) = Some g
    /\ queries (session g) = 3
    /\ issued g = [].
Proof.
  destruct (enqueue_only_queues sample.E sample.P
              [replyCalled 200 "ok" []; requestCalled "GET" "/" [] "";
               replyCalled 404 "gone" []]
              (newFlow false true false) eq_refl)
    as (g & new & Hrun & _ & _ & Hq & Hi & _).
  exists g. split; [exact Hrun|]. split; [exact Hq | exact Hi].
Defined.

(** ** Further properties of the flow *)

Lemma closes_app (c : connection) (a b : list operation) :
  closes c (a ++ b) = (closes c a + closes c b)%nat.
Proof.
  induction a as [|o a IH]; simpl; [reflexivity|].
  destruct o; simpl; try exact IH.
  destruct (connection_eqb c c0); simpl; now rewrite IH.
Qed.

Lemma issued_recycle (P : processor.t) (f : flow) :
  issued (recycle P f)
  = (issued f ++ (if free (session f) then [] else closing f))%list.
Proof.
  unfold recycle, closing, maybeShutdown.
  destruct (free (session f)); [now rewrite app_nil_r|].
  destruct f as [s ops n sep shut err]. simpl.
  destruct shut, sep; simpl; rewrite <- ?app_assoc; reflexivity.
Qed.

(** X5. [recycle] on a session in use issues the teardown and nothing else: the
    input connection is closed once, the output connection is closed once
    if it is a connection of its own and not at all if it is the input
    connection, and no shutdown is issued for a connection type that has
    none. On a free session nothing is issued. No read or write is among the
    operations. *)
Theorem recycle_closes_once (P : processor.t) (f : flow) :
  issued (recycle P f)
  = (issued f ++ (if free (session f) then [] else closing f))%list
  /\ closes inputConnection (closing f) = 1%nat
  /\ closes outputConnection (closing f)
     = (if separateOutput f then 1%nat else 0%nat)
  /\ shutdowns (closing f)
     = (if canShutdown f
        then (if separateOutput f then 2%nat else 1%nat)
        else 0%nat)
  /\ written (closing f) = [] /\ reads (closing f) = [].
Proof.
  split; [apply issued_recycle|].
  unfold closing. destruct (canShutdown f), (separateOutput f);
    repeat split.
Qed.

(** X6. A transport error ends the connection. A read that completes with an
    error, in any status but [stShutdown], is no input: no line is taken, no
    reply is queued, and the session is recycled from [stError]; a write
    that completes with an error recycles the session as well, whatever is
    still queued. Neither issues a read or a write. *)
Theorem transport_error_terminal (E : collaborators) (P : processor.t)
    (length : Z) (f : flow) :
  (status (session f) <> stShutdown ->
   handleRead E P true length f = recycle P (onSession (set_status stError) f))
  /\ handleWrite P true f = recycle P (onSession (set_writePending false) f)
  /\ (status (session f) <> stShutdown ->
      written (issued (handleRead E P true length f)) = written (issued f)
      /\ reads (issued (handleRead E P true length f)) = reads (issued f))
  /\ written (issued (handleWrite P true f)) = written (issued f)
  /\ reads (issued (handleWrite P true f)) = reads (issued f)
  /\ (free (session f) = false ->
      outboundQueue (session (handleWrite P true f)) = []
      /\ status (session (handleWrite P true f)) = stShutdown
      /\ free (session (handleWrite P true f)) = true).
Proof.
  assert (Hread : status (session f) <> stShutdown ->
    handleRead E P true length f
    = recycle P (onSession (set_status stError) f)).
  { intro Hst. apply status_eqb_neq in Hst. unfold handleRead. rewrite Hst.
    cbn -[recycle]. reflexivity. }
  assert (Hwrite : handleWrite P true f
                   = recycle P (onSession (set_writePending false) f))
    by reflexivity.
  split; [exact Hread|]. split; [exact Hwrite|].
  split.
  { intro Hst. rewrite (Hread Hst).
    destruct (written_recycle P (onSession (set_status stError) f))
      as (Hw & Hr).
    now rewrite Hw, Hr. }
  destruct (written_recycle P (onSession (set_writePending false) f))
    as (Hw & Hr).
  rewrite Hwrite, Hw, Hr.
  split; [reflexivity|]. split; [reflexivity|].
  intro Hfree.
  rewrite (session_recycle P (onSession (set_writePending false) f) Hfree).
  repeat split.
Qed.

Lemma transport_error_terminal_witness :
  let f := onSession (reply sample.E 200 "ok" [])
                     (start sample.P (newFlow false true false)) in
  handleRead sample.E sample.P true 0 f
  = recycle sample.P (onSession (set_status stError) f)
  /\ written (issued (handleRead sample.E sample.P true 0 f)) = []
  /\ outboundQueue (session f) <> []
  /\ outboundQueue (session (handleWrite sample.P true f)) = []
  /\ free (session (handleWrite sample.P true f)) = true.
Proof.
  intro f.
  destruct (transport_error_terminal sample.E sample.P 0 f)
    as (Hread & _ & Hquiet & _ & _ & Hdown).
  assert (Hst : status (session f) <> stShutdown) by discriminate.
  destruct (Hquiet Hst) as (Hw & _).
  destruct (Hdown eq_refl) as (Hq & _ & Hfree).
  split; [exact (Hread Hst)|]. split; [exact Hw|].
  split; [discriminate|]. split; [exact Hq | exact Hfree].
Defined.

(** X7. A valid request line (the server) or status line (the client) with a
    version below 2.0 is taken over, the session goes on to [stHeader] with
    the inbound headers of the previous message dropped, and one line read
    is issued. The processor is not asked, nothing is queued and nothing is
    written. *)
Theorem line_accepted (E : collaborators) (P : processor.t) (length : Z)
    (f : flow) :
  let line := fst (buffer (session f)) in
  let rest := snd (buffer (session f)) in
  let g := handleRead E P false length f in
  let read :=
    status (session g) = stHeader
    /\ inbound (session g) = parserOf []
    /\ outboundQueue (session g) = outboundQueue (session f)
    /\ issued g = (issued f ++ [async_read_until])%list in
  (status (session f) = stRequest ->
   requestValid (parseRequestLine E line) = true ->
   version_ge (requestVersion (parseRequestLine E line)) limVersion = false ->
   g = readLine
         (onSession
            (fun _ => set_inbound (parserOf [])
                        (set_status stHeader
                           (set_inboundRequest (parseRequestLine E line)
                                               rest))) f)
   /\ inboundRequest (session g) = parseRequestLine E line
   /\ read)
  /\ (status (session f) = stStatus ->
      statusValid (parseStatusLine E line) = true ->
      version_ge (statusVersion (parseStatusLine E line)) limVersion
      = false ->
      g = readLine
            (onSession
               (fun _ => set_inbound (parserOf [])
                           (set_status stHeader
                              (set_inboundStatus (parseStatusLine E line)
                                                 rest))) f)
      /\ inboundStatus (session g) = parseStatusLine E line
      /\ read).
Proof.
  intros line rest g read.
  assert (Hq : outboundQueue rest = outboundQueue (session f))
    by (unfold rest; rewrite buffer_session; reflexivity).
  split; intros Hst Hvalid Hver.
  - assert (Hg : g = readLine
         (onSession
            (fun _ => set_inbound (parserOf [])
                        (set_status stHeader
                           (set_inboundRequest (parseRequestLine E line)
                                               rest))) f)).
    { unfold g, handleRead, absorbLine. rewrite Hst.
      subst line rest. destruct (buffer (session f)) as [line s1].
      cbn [fst snd] in *. cbn -[send recycle errorReply version_ge].
      rewrite Hvalid. unfold rejectVersion.
      cbn -[send recycle errorReply version_ge]. rewrite Hver.
      unfold answerLine, continueRead.
      cbn -[send recycle errorReply version_ge]. reflexivity. }
    split; [exact Hg|]. unfold read. rewrite Hg.
    split; [reflexivity|]. repeat split. exact Hq.
  - assert (Hg : g = readLine
         (onSession
            (fun _ => set_inbound (parserOf [])
                        (set_status stHeader
                           (set_inboundStatus (parseStatusLine E line)
                                              rest))) f)).
    { unfold g, handleRead, absorbLine. rewrite Hst.
      subst line rest. destruct (buffer (session f)) as [line s1].
      cbn [fst snd] in *. cbn -[send recycle errorReply version_ge].
      rewrite Hvalid. unfold rejectVersion.
      cbn -[send recycle errorReply version_ge]. rewrite Hver.
      unfold answerLine, continueRead.
      cbn -[send recycle errorReply version_ge]. reflexivity. }
    split; [exact Hg|]. unfold read. rewrite Hg.
    split; [reflexivity|]. repeat split. exact Hq.
Qed.

Lemma line_accepted_witness :
  let f := onSession (set_input sample.getRequest)
                     (start sample.P (newFlow false true false)) in
  let g := handleRead sample.E sample.P false 0 f in
  status (session g) = stHeader
  /\ method (inboundRequest (session g)) = "GET"
  /\ input (session g) = "Host: x" ++ CRLF ++ CRLF
  /\ issued g = [async_read_until; async_read_until].
Proof.
  intros f g.
  destruct (line_accepted sample.E sample.P 0 f) as (Hreq & _).
  destruct (Hreq eq_refl eq_refl eq_refl) as (_ & Hline & Hst & _ & _ & Hi).
  split; [exact Hst|]. split; [fold g in Hline; now rewrite Hline|].
  split; [reflexivity | exact Hi].
Defined.

(** X8. A status line that is not valid ends the client's session: it is
    recycled from [stError] and, unlike for a request line, no reply is
    queued and nothing is written. *)
Theorem status_line_invalid (E : collaborators) (P : processor.t)
    (length : Z) (f : flow) :
  status (session f) = stStatus ->
  let sl := parseStatusLine E (fst (buffer (session f))) in
  statusValid sl = false ->
  let g := handleRead E P false length f in
  g = recycle P
        (onSession (fun _ => set_status stError
                               (set_inboundStatus sl
                                  (snd (buffer (session f))))) f)
  /\ written (issued g) = written (issued f)
  /\ reads (issued g) = reads (issued f).
Proof.
  intros Hst sl Hvalid g.
  assert (Hg : g = recycle P
        (onSession (fun _ => set_status stError
                               (set_inboundStatus sl
                                  (snd (buffer (session f))))) f)).
  { unfold g, handleRead, absorbLine. rewrite Hst. subst sl.
    destruct (buffer (session f)) as [line s1]. cbn [fst snd] in *.
    cbn -[send recycle errorReply version_ge]. rewrite Hvalid.
    unfold rejectVersion, answerLine, continueRead.
    cbn -[send recycle errorReply version_ge]. reflexivity. }
  split; [exact Hg|]. rewrite Hg.
  apply (written_recycle P
           (onSession (fun _ => set_status stError
                                  (set_inboundStatus sl
                                     (snd (buffer (session f))))) f)).
Qed.

Lemma status_line_invalid_witness :
  let f := onSession (fun s => set_input ("nonsense" ++ CRLF)
                                 (set_status stStatus s))
                     (newFlow false true false) in
  let g := handleRead sample.E sample.P false 0 f in
  status (session g) = stShutdown /\ written (issued g) = []
  /\ outboundQueue (session g) = [].
Proof.
  intros f g.
  destruct (status_line_invalid sample.E sample.P 0 f eq_refl eq_refl)
    as (Hg & Hw & _).
  fold g in Hg, Hw. split; [now rewrite Hg|]. split; [exact Hw|].
  now rewrite Hg.
Defined.

(** X9. A header line that does not complete the header block is absorbed and
    another line read is issued; the processor is not asked and nothing is
    written. *)
Theorem header_incomplete (E : collaborators) (P : processor.t) (length : Z)
    (f : flow) :
  status (session f) = stHeader ->
  let line := fst (buffer (session f)) in
  let rest := snd (buffer (session f)) in
  complete (absorb E line (inbound rest)) = false ->
  let g := handleRead E P false length f in
  g = readLine (onSession (fun _ => set_inbound (absorb E line (inbound rest))
                                      rest) f)
  /\ status (session g) = stHeader
  /\ issued g = (issued f ++ [async_read_until])%list.
Proof.
  intros Hst line rest Hc g.
  assert (Hrest : status rest = stHeader)
    by (unfold rest; rewrite buffer_session; exact Hst).
  assert (Hg : g = readLine
    (onSession (fun _ => set_inbound (absorb E line (inbound rest)) rest) f)).
  { unfold g, handleRead, absorbLine. rewrite Hst. subst line rest.
    destruct (buffer (session f)) as [line s1]. cbn [fst snd] in *.
    cbn -[send recycle errorReply version_ge]. rewrite Hc.
    unfold rejectVersion, answerLine, continueRead.
    cbn -[send recycle errorReply version_ge]. rewrite Hrest.
    cbn -[send recycle errorReply version_ge]. rewrite Hrest.
    reflexivity. }
  split; [exact Hg|]. rewrite Hg. split; [exact Hrest | reflexivity].
Qed.

Lemma header_incomplete_witness :
  let f := onSession (fun s => set_input ("Host: x" ++ CRLF ++ CRLF)
                                 (set_status stHeader s))
                     (newFlow false true false) in
  let g := handleRead sample.E sample.P false 0 f in
  find "Host" (header (inbound (session g))) = Some "x"
  /\ status (session g) = stHeader
  /\ issued g = [async_read_until].
Proof.
  intros f g.
  destruct (header_incomplete sample.E sample.P 0 f eq_refl eq_refl)
    as (Hg & Hst & Hi).
  fold g in Hg. split; [now rewrite Hg|]. split; [exact Hst | exact Hi].
Defined.

Lemma take_all (buf : string) : take (String.length buf) buf = buf.
Proof. induction buf as [|c r IH]; simpl; [reflexivity | now rewrite IH]. Qed.

Lemma drop_all (buf : string) : drop (String.length buf) buf = "".
Proof. induction buf as [|c r IH]; simpl; [reflexivity | exact IH]. Qed.

Lemma set_input_same (s : sessionData) : set_input (input s) s = s.
Proof. now destruct s. Qed.

(** While the body is read, a read completion goes straight to the body. *)
Lemma handleRead_content (E : collaborators) (P : processor.t) (length : Z)
    (f : flow) :
  status (session f) = stContent ->
  handleRead E P false length f
  = if status_eqb (status (session (continueRead P f))) stError
    then recycle P (continueRead P f)
    else continueRead P f.
Proof.
  intro Hst. unfold handleRead, absorbLine, rejectVersion, answerLine.
  rewrite Hst. reflexivity.
Qed.

(** What [buffer] does while the body is read, for a body buffer that is
    within the expected length. *)
Lemma buffer_content (s : sessionData) :
  status s = stContent -> bodyWithin s ->
  let n := Z.to_nat (Z.min (remainingBytes s) (size (input s))) in
  buffer s = (take n (input s), set_input (drop n (input s)) s).
Proof.
  intros Hst Hin n. unfold buffer. rewrite Hst.
  destruct (remainingBytes s >? 0) eqn:Hgt; [reflexivity|].
  assert (Hr := remainingBytes_range s).
  assert (Hi := size_nonneg (input s)).
  assert (n = O) as -> by (unfold n; lia).
  cbn [take drop]. now rewrite set_input_same.
Qed.

(** X10. A body read that brings less than what is missing appends all of the
    input to the body buffer and issues a read for at least the number of
    bytes that are then missing; the processor is not asked. *)
Theorem body_partial (E : collaborators) (P : processor.t) (length : Z)
    (f : flow) :
  status (session f) = stContent -> bodyWithin (session f) ->
  size (input (session f)) < remainingBytes (session f) ->
  let s := session f in
  let g := handleRead E P false length f in
  g = readRemainingContent
        (onSession (fun _ => set_content (content s ++ input s)
                               (set_input "" s)) f)
  /\ issued g
     = (issued f
        ++ [async_read (contentLength s - size (content s)
                        - size (input s))])%list
  /\ status (session g) = stContent.
Proof.
  intros Hst Hin Hless s g.
  destruct (remainingBytes_within s Hin) as (Hrem & Hpos).
  assert (Hi := size_nonneg (input s)).
  assert (Hbuf : buffer s = (input s, set_input "" s)).
  { rewrite (buffer_content s Hst Hin). cbn zeta.
    replace (Z.to_nat (Z.min (remainingBytes s) (size (input s))))
      with (String.length (input s))
      by (fold s in Hless; unfold size in *; lia).
    now rewrite take_all, drop_all. }
  assert (Hnew : remainingBytes (set_content (content s ++ input s)
                                             (set_input "" s))
                 = contentLength s - size (content s) - size (input s)).
  { unfold remainingBytes, wrap. cbn [content contentLength set_content
                                       set_input].
    rewrite size_append. destruct Hin as (Hrange & _). fold s in Hrange.
    assert (Hc := size_nonneg (content s)). fold s in Hless.
    rewrite Z.mod_small by lia. lia. }
  assert (Hg : g = readRemainingContent
        (onSession (fun _ => set_content (content s ++ input s)
                               (set_input "" s)) f)).
  { unfold g. rewrite (handleRead_content E P length f Hst).
    unfold continueRead. rewrite Hst. fold s. rewrite Hbuf.
    cbn [content set_input session onSession].
    rewrite Hnew. fold s in Hless.
    assert ((contentLength s - size (content s) - size (input s) =? 0)
            = false) as -> by lia.
    cbn [readRemainingContent issue session onSession status set_content
         set_input status_eqb].
    unfold s. rewrite Hst. reflexivity. }
  split; [exact Hg|]. rewrite Hg.
  split.
  - unfold readRemainingContent. cbn [issued issue onSession session].
    now rewrite Hnew.
  - exact Hst.
Qed.

Lemma body_partial_witness :
  let f := onSession (fun s => set_input "hel"
                                 (set_contentLength 5
                                    (set_status stContent s)))
                     (newFlow false true false) in
  let g := handleRead sample.E sample.P false 3 f in
  content (session g) = "hel" /\ issued g = [async_read 2]
  /\ replies (session g) = 0.
Proof.
  intros f g.
  assert (Hin : bodyWithin (session f))
    by (split; [split; [discriminate | reflexivity] | discriminate]).
  destruct (body_partial sample.E sample.P 3 f eq_refl Hin eq_refl)
    as (Hg & Hi & _).
  fold g in Hg, Hi. split; [now rewrite Hg|]. split; [exact Hi|].
  now rewrite Hg.
Defined.

(** X11. A body read that brings what is missing, or more, completes the body:
    the processor's [handle] runs on a session in [stProcessing] whose body
    buffer has exactly the expected length; bytes beyond the body stay in
    the input. The status the processor returns after processing decides
    what follows. *)
Theorem body_complete (E : collaborators) (P : processor.t) (length : Z)
    (f : flow) :
  status (session f) = stContent -> bodyWithin (session f) ->
  remainingBytes (session f) <= size (input (session f)) ->
  let s := session f in
  let n := Z.to_nat (remainingBytes s) in
  let s1 :=
    set_status stProcessing
      (set_content (content s ++ take n (input s))
                   (set_input (drop n (input s)) s)) in
  let g :=
    handleStart P
      (onSession (assignStatus (processor.afterProcessing P))
         (onSession (processor.handle P) (onSession (fun _ => s1) f))) in
  size (content s1) = contentLength s1
  /\ take n (input s) ++ input s1 = input s
  /\ handleRead E P false length f
     = (if status_eqb (status (session g)) stError then recycle P g else g).
Proof.
  intros Hst Hin Hmore s n s1 g.
  destruct (remainingBytes_within s Hin) as (Hrem & Hpos).
  assert (Hi := size_nonneg (input s)). fold s in Hmore.
  assert (Hbuf : buffer s = (take n (input s), set_input (drop n (input s)) s)).
  { rewrite (buffer_content s Hst Hin). cbn zeta.
    now rewrite Z.min_l by exact Hmore. }
  assert (Hsize : size (content s ++ take n (input s)) = contentLength s).
  { rewrite size_append, size_take. unfold n. rewrite Z2Nat.id by lia. lia. }
  split; [exact Hsize|]. split; [apply take_drop|].
  rewrite (handleRead_content E P length f Hst).
  assert (Hc : continueRead P f = g).
  { unfold continueRead. rewrite Hst. fold s. rewrite Hbuf.
    cbn [content set_input session onSession].
    assert (remainingBytes (set_content (content s ++ take n (input s))
                              (set_input (drop n (input s)) s)) = 0) as ->.
    { unfold remainingBytes, wrap.
      cbn [content contentLength set_content set_input].
      rewrite Hsize, Z.sub_diag. reflexivity. }
    reflexivity. }
  now rewrite Hc.
Qed.

Lemma body_complete_witness :
  let f := onSession (fun s => set_input "lo, and more"
                                 (set_content "hel"
                                    (set_contentLength 5
                                       (set_status stContent s))))
                     (newFlow false true false) in
  let g := handleRead sample.E sample.P false 12 f in
  content (session g) = "hello" /\ input (session g) = ", and more"
  /\ replies (session g) = 1 /\ status (session g) = stRequest.
Proof.
  intros f g.
  assert (Hin : bodyWithin (session f))
    by (split; [split; [discriminate | reflexivity] | discriminate]).
  assert (Hmore : remainingBytes (session f) <= size (input (session f)))
    by discriminate.
  destruct (body_complete sample.E sample.P 12 f eq_refl Hin Hmore)
    as (_ & _ & Hg).
  fold g in Hg. rewrite Hg. repeat split.
Defined.

Section ReadCadence.

Variable E : collaborators.
Variable P : processor.t.

Lemma reads_send (f : flow) : reads (issued (send P f)) = reads (issued f).
Proof.
  unfold send.
  destruct (negb (status_eqb (status (session f)) stShutdown)
            && negb (writePending (session f))); [|reflexivity].
  destruct (outboundQueue (session f)).
  - destruct (closeAfterSend (session f)); [|reflexivity].
    apply written_recycle.
  - cbn [issued onSession asyncWrite]. rewrite reads_app. simpl.
    apply app_nil_r.
Qed.

Lemma reads_handleStart (f : flow) :
  reads (issued (handleStart P f))
  = (reads (issued f)
     ++ match status (session f) with
        | stRequest | stStatus => [async_read_until]
        | _ => []
        end)%list.
Proof.
  unfold handleStart. rewrite reads_send.
  destruct (status (session f)); cbn [readLine issue issued];
    rewrite ?reads_app, ?app_nil_r; try reflexivity.
  apply written_recycle.
Qed.

Lemma reads_absorbLine (f : flow) :
  reads (issued (snd (absorbLine E P f))) = reads (issued f).
Proof.
  unfold absorbLine.
  destruct (status (session f)); try reflexivity;
    destruct (buffer (session f)) as [line s1]; try reflexivity.
  match goal with |- context [if ?c then _ else _] => destruct c end;
    [|reflexivity].
  cbn [snd issued onSession]. now rewrite reads_send.
Qed.

Lemma reads_answerLine (wasRequest wasStart : bool) (v : version)
    (f : flow) :
  reads (issued (answerLine E P wasRequest wasStart v
                   (rejectVersion wasStart v f)))
  = reads (issued f).
Proof.
  assert (Hr : issued (rejectVersion wasStart v f) = issued f).
  { unfold rejectVersion.
    now match goal with |- context [if ?c then _ else _] => destruct c end. }
  unfold answerLine.
  repeat match goal with
         | |- context [if ?c then _ else _] => destruct c
         end;
    cbn [issued onSession]; rewrite ?reads_send; cbn [issued onSession];
    now rewrite Hr.
Qed.

Lemma reads_continueRead (f : flow) :
  exists new,
    reads (issued (continueRead P f)) = (reads (issued f) ++ new)%list
    /\ (List.length new <= 1)%nat.
Proof.
  unfold continueRead.
  destruct (status (session f)); try (exists []; split;
    [now rewrite app_nil_r | simpl; lia]).
  - exists [async_read_until]. cbn [readLine issue issued].
    rewrite reads_app. split; [reflexivity | simpl; lia].
  - destruct (buffer (session f)) as [chunk s1].
    match goal with |- context [if ?c then _ else _] => destruct c end.
    + rewrite reads_handleStart. cbn [issued onSession].
      eexists. split; [reflexivity|].
      match goal with |- context [match ?x with _ => _ end] =>
        destruct x end; simpl; lia.
    + eexists. cbn [readRemainingContent issue issued onSession].
      rewrite reads_app. split; [reflexivity | simpl; lia].
Qed.

End ReadCadence.

(** X12. The read cadence: a read completion issues at most one further read,
    and so does [start]; [send] and a write completion issue none. *)
Theorem one_read_per_completion (E : collaborators) (P : processor.t)
    (error : bool) (length : Z) (f : flow) :
  (exists new,
      reads (issued (handleRead E P error length f))
      = (reads (issued f) ++ new)%list
      /\ (List.length new <= 1)%nat)
  /\ (exists new,
        reads (issued (start P f)) = (reads (issued f) ++ new)%list
        /\ (List.length new <= 1)%nat)
  /\ reads (issued (handleWrite P error f)) = reads (issued f)
  /\ reads (issued (send P f)) = reads (issued f).
Proof.
  split; [|split; [|split; [|apply reads_send]]].
  - unfold handleRead.
    destruct (status_eqb (status (session f)) stShutdown).
    { exists []. split; [now rewrite app_nil_r | simpl; lia]. }
    match goal with
    | |- context [absorbLine E P ?g] =>
        assert (Ha := reads_absorbLine E P g);
        assert (Hg : issued g = issued f) by (now destruct error);
        destruct (absorbLine E P g) as [v f1]
    end.
    cbn [snd] in Ha. rewrite Hg in Ha.
    match goal with
    | |- context [continueRead P (answerLine E P ?a ?b v ?h)] =>
        destruct (reads_continueRead P (answerLine E P a b v h))
          as (new & Hnew & Hlen);
        assert (Hl := reads_answerLine E P a b v f1)
    end.
    rewrite Hl, Ha in Hnew. exists new. split; [|exact Hlen].
    match goal with |- context [if ?c then _ else _] => destruct c end;
      [|exact Hnew].
    match goal with
    | |- context [recycle P ?g] =>
        destruct (written_recycle P g) as (_ & Hr)
    end.
    now rewrite Hr.
  - unfold start. rewrite reads_handleStart. cbn [issued onSession].
    eexists. split; [reflexivity|].
    match goal with |- context [match ?x with _ => _ end] =>
      destruct x end; simpl; lia.
  - unfold handleWrite.
    match goal with
    | |- context [if error || _ then recycle P ?g else _] =>
        assert (Hg : reads (issued g) = reads (issued f))
    end.
    { destruct error; cbn [negb]; [reflexivity|]. rewrite reads_send.
      now match goal with |- context [if ?c then _ else _] => destruct c end. }
    match goal with |- context [if ?c then _ else _] => destruct c end;
      [|exact Hg].
    match goal with
    | |- context [recycle P ?g] =>
        destruct (written_recycle P g) as (_ & Hr)
    end.
    now rewrite Hr.
Qed.

(** X13. [handleStart] issues a line read exactly when the session awaits a
    request line or a status line; in [stShutdown] it is [recycle]; in no
    status does it issue a body read. *)
Theorem handleStart_reads (P : processor.t) (f : flow) :
  reads (issued (handleStart P f))
  = (reads (issued f)
     ++ match status (session f) with
        | stRequest | stStatus => [async_read_until]
        | _ => []
        end)%list
  /\ (status (session f) = stShutdown -> handleStart P f = recycle P f).
Proof.
  split; [apply reads_handleStart|].
  intro Hst. unfold handleStart. rewrite Hst.
  apply send_guarded. left.
  destruct (free (session f)) eqn:Hfree.
  - now rewrite recycle_free.
  - now rewrite session_recycle.
Qed.

Lemma handleStart_reads_witness :
  let f := onSession (set_status stShutdown) (newFlow true true false) in
  handleStart sample.P f = recycle sample.P f
  /\ issued (handleStart sample.P f)
     = [shutdown inputConnection; close inputConnection;
        shutdown outputConnection; close outputConnection].
Proof.
  intro f. destruct (handleStart_reads sample.P f) as (_ & Hshut).
  split; [exact (Hshut eq_refl)|]. rewrite (Hshut eq_refl). reflexivity.
Defined.

(** X14. [request] flags the session as a HEAD request exactly when the method
    is the string "HEAD", and so replaces the flag of the request before:
    a reply generated afterwards has a body exactly when the status is at
    least 200 and the method of the latest request is not "HEAD". *)
Theorem request_sets_head (E : collaborators) (m r : string)
    (h : headers) (b : string) (s : sessionData) (st : Z) (body : string)
    (hdr : headers) :
  let s' := request E m r h b s in
  (isHEAD s' = true <-> m = "HEAD")
  /\ requests s' = wrap (requests s + 1)
  /\ replyHead s' st body hdr = replyHead (set_isHEAD (isHEAD s') s) st body hdr
  /\ generateReply E s' st body hdr
     = (statusLineString E st ++ parserString (replyHead s' st body hdr)
        ++ CRLF)
       ++ (if (st >=? 200) && negb (String.eqb m "HEAD") then body else "").
Proof.
  intro s'. split; [apply String.eqb_eq|].
  split; [reflexivity|]. split; [reflexivity|].
  now rewrite generateReply_split.
Qed.

Lemma request_sets_head_examples :
  let s1 := request sample.E "HEAD" "/" [] "" newSessionData in
  let s2 := request sample.E "GET" "/" [] "" s1 in
  let s3 := request sample.E "head" "/" [] "" newSessionData in
  generateReply sample.E s1 200 "hello" []
  = "HTTP/1.1 200 OK" ++ CRLF ++ "Content-Length: 5" ++ CRLF ++ CRLF
  /\ generateReply sample.E s2 200 "hello" []
     = "HTTP/1.1 200 OK" ++ CRLF ++ "Content-Length: 5" ++ CRLF ++ CRLF
       ++ "hello"
  /\ isHEAD s3 = false.
Proof. repeat split. Qed.

Lemma snd_negotiate (E : collaborators) (l : headers) (s : sessionData) :
  snd (negotiate E l s)
  = fst (fold_left (negotiateOne E) l (set_negotiated [] s, false)).
Proof.
  unfold negotiate.
  now destruct (fold_left (negotiateOne E) l (set_negotiated [] s, false)).
Qed.

(** X15. [negotiate] starts from an empty [negotiated] map: afterwards it holds
    the negotiated value for every name of the map that was passed, and
    nothing for any other name, whatever was negotiated before. *)
Theorem negotiate_resets (E : collaborators) (l : headers)
    (s : sessionData) (j : string) :
  sortedKeys l = true ->
  find j (negotiated (snd (negotiate E l s)))
  = match entry j l with
    | Some n => Some (negotiatedValue E (inbound s) n)
    | None => None
    end.
Proof.
  intro Hs. rewrite snd_negotiate.
  destruct (negotiate_fold E l (set_negotiated [] s) false)
    as (_ & _ & _ & Hsorted).
  destruct (Hsorted Hs) as (Hneg & _). exact (Hneg j).
Qed.

Lemma negotiate_resets_witness :
  let s := snd (negotiate sample.E (mkHeaders [("Accept", "text/html")])
                          newSessionData) in
  let s' := snd (negotiate sample.E (mkHeaders [("Accept-Language", "en")])
                           s) in
  find "Accept" (negotiated s) = Some "text/html"
  /\ find "Accept" (negotiated s') = None
  /\ find "accept-language" (negotiated s') = Some "en".
Proof.
  intros s s'.
  split; [exact (negotiate_resets sample.E
                   (mkHeaders [("Accept", "text/html")]) newSessionData
                   "Accept" eq_refl)|].
  split.
  - exact (negotiate_resets sample.E
             (mkHeaders [("Accept-Language", "en")]) s "Accept" eq_refl).
  - exact (negotiate_resets sample.E
             (mkHeaders [("Accept-Language", "en")]) s "accept-language"
             eq_refl).
Defined.

(** X16. The outbound Vary header is not reset by [negotiate]: negotiating the
    same map a second time appends every name once more. *)
Theorem negotiate_vary_accumulates (E : collaborators) (l : headers)
    (s : sessionData) :
  let s1 := snd (negotiate E l s) in
  let s2 := snd (negotiate E l s1) in
  varyOf s1 = fold_left appendValue (map fst l) (varyOf s)
  /\ varyOf s2 = fold_left appendValue (map fst l ++ map fst l) (varyOf s).
Proof.
  intros s1 s2. unfold s2, s1. rewrite !snd_negotiate.
  destruct (negotiate_fold E l (set_negotiated [] s) false)
    as (_ & _ & Hv & _).
  destruct (negotiate_fold E l
              (set_negotiated []
                 (fst (fold_left (negotiateOne E) l
                         (set_negotiated [] s, false)))) false)
    as (_ & _ & Hv' & _).
  cbn zeta in Hv, Hv'.
  change (varyOf (set_negotiated [] s)) with (varyOf s) in Hv.
  split; [exact Hv|].
  rewrite Hv', fold_left_app. f_equal. exact Hv.
Qed.

Lemma negotiate_vary_accumulates_example :
  let l := mkHeaders [("Accept", "text/html")] in
  varyOf (snd (negotiate sample.E l
                 (snd (negotiate sample.E l newSessionData))))
  = "Accept,Accept".
Proof. reflexivity. Qed.

(** X17. When a write completes without error while nothing is queued: with
    [closeAfterSend] set, as after a reply with a status of 400 or more, the
    session is recycled and the connection closed; without it, and outside
    [stProcessing] and [stShutdown], the write flag is cleared and nothing
    else happens, the connection stays open. *)
Theorem close_after_send (P : processor.t) (f : flow) :
  outboundQueue (session f) = [] ->
  (keepsQueue P -> free (session f) = false ->
   closeAfterSend (session f) = true ->
   let g := handleWrite P false f in
   free (session g) = true /\ status (session g) = stShutdown
   /\ issued g = (issued f ++ closing f)%list)
  /\ (closeAfterSend (session f) = false ->
      status (session f) <> stProcessing ->
      status (session f) <> stShutdown ->
      handleWrite P false f = onSession (set_writePending false) f).
Proof.
  intro Hq. split.
  - intros Hk Hfree Hclose g.
    assert (Hg : g = recycle P g /\ exists g0,
               g = recycle P g0 /\ free (session g0) = false
               /\ issued g0 = issued f
               /\ separateOutput g0 = separateOutput f
               /\ canShutdown g0 = canShutdown f).
    { unfold g, handleWrite. cbn [negb orb].
      match goal with |- context [send P ?h0] => set (h := h0) end.
      assert (Hh : outboundQueue (session h) = []
                   /\ closeAfterSend (session h) = true
                   /\ writePending (session h) = false
                   /\ free (session h) = false
                   /\ issued h = issued f
                   /\ separateOutput h = separateOutput f
                   /\ canShutdown h = canShutdown f).
      { unfold h.
        match goal with |- context [if ?c then _ else _] => destruct c end;
          [|repeat split; assumption].
        cbn [session onSession issued separateOutput canShutdown].
        unfold assignStatus.
        assert (Hkeep := Hk (set_writePending false (session f))).
        cbv beta in Hkeep.
        destruct (processor.afterProcessing P
                    (set_writePending false (session f))) as [s' st'].
        cbn [fst] in Hkeep. injection Hkeep as Hq' Hc' Hw' Hf'.
        flow_cbn. repeat split; congruence. }
      clearbody h.
      destruct Hh as (Hhq & Hhc & Hhw & Hhf & Hhi & Hhs & Hhd).
      unfold send. rewrite Hhw, Hhq, Hhc.
      destruct (status_eqb (status (session h)) stShutdown) eqn:Hst;
        cbn [negb andb].
      - rewrite Hst. split.
        + symmetry. apply recycle_free, free_recycle.
        + exists h. repeat split; assumption.
      - assert (Hshut : status (session (recycle P h)) = stShutdown)
          by now rewrite (session_recycle P h Hhf).
        rewrite Hshut. cbn [status_eqb]. split.
        + symmetry. apply recycle_free.
          rewrite recycle_free; apply free_recycle.
        + exists h. split; [|repeat split; assumption].
          apply recycle_free, free_recycle. }
    destruct Hg as (_ & g0 & Hg & Hf0 & Hi0 & Hs0 & Hd0).
    rewrite Hg. split; [apply free_recycle|].
    split; [now rewrite (session_recycle P g0 Hf0)|].
    assert (Hc := issued_recycle P g0).
    rewrite Hf0, Hi0 in Hc. rewrite Hc. unfold closing.
    now rewrite Hs0, Hd0.
  - intros Hclose Hproc Hshut. unfold handleWrite. cbn [negb orb].
    apply status_eqb_neq in Hproc. apply status_eqb_neq in Hshut.
    cbn [session onSession status set_writePending]. rewrite Hproc.
    unfold send. cbn [session onSession status set_writePending
                      writePending outboundQueue closeAfterSend].
    rewrite Hshut, Hq, Hclose. cbn [negb andb session onSession status
                                     set_writePending].
    now rewrite Hshut.
Qed.

Lemma sample_keepsQueue : keepsQueue sample.P.
Proof. intro s. reflexivity. Qed.

(** A line that is no request line is answered with 400; when the write of
    that reply completes, the connection is closed. *)
Lemma close_after_send_witness :
  let f :=
    handleRead sample.E sample.P false 7
      (onSession (set_input ("hello" ++ CRLF))
                 (start sample.P (newFlow false true false))) in
  let g := handleWrite sample.P false f in
  closeAfterSend (session f) = true
  /\ free (session g) = true /\ status (session g) = stShutdown
  /\ closes inputConnection (issued g) = 1%nat
  /\ List.length (written (issued g)) = 1%nat.
Proof.
  intros f g.
  destruct (close_after_send sample.P f eq_refl) as (Hclose & _).
  destruct (Hclose sample_keepsQueue eq_refl eq_refl) as (Hfree & Hst & Hi).
  fold g in Hfree, Hst, Hi.
  split; [reflexivity|]. split; [exact Hfree|]. split; [exact Hst|].
  rewrite Hi. split; reflexivity.
Defined.

(** X18. [remainingBytes] is an unsigned difference: once the body buffer is
    longer than the content length it does not go negative but wraps
    around, and [buffer] then takes all of an input that is shorter than
    that. *)
Theorem remainingBytes_wraps (s : sessionData) :
  0 <= contentLength s -> contentLength s < size (content s) ->
  size (content s) < size_max ->
  remainingBytes s = size_max - (size (content s) - contentLength s)
  /\ 0 < remainingBytes s
  /\ (status s = stContent -> size (input s) <= remainingBytes s ->
      buffer s = (input s, set_input "" s)).
Proof.
  intros Hpos Hlt Hmax.
  assert (Hrem : remainingBytes s
                 = size_max - (size (content s) - contentLength s)).
  { unfold remainingBytes, wrap.
    replace (contentLength s - size (content s))
      with (size_max - (size (content s) - contentLength s)
            + (-1) * size_max) by lia.
    rewrite Z.mod_add by (unfold size_max; lia).
    apply Z.mod_small. lia. }
  split; [exact Hrem|]. split; [lia|].
  intros Hst Hin. unfold buffer. rewrite Hst.
  assert ((remainingBytes s >? 0) = true) as -> by lia.
  replace (Z.to_nat (Z.min (remainingBytes s) (size (input s))))
    with (String.length (input s)) by (unfold size in *; lia).
  now rewrite take_all, drop_all.
Qed.

Lemma remainingBytes_wraps_witness :
  let s := set_input "more"
             (set_content "hello"
                (set_contentLength 3 (set_status stContent newSessionData))) in
  remainingBytes s = 18446744073709551614
  /\ buffer s = ("more", set_input "" s).
Proof.
  intro s.
  assert (H0 : 0 <= contentLength s) by discriminate.
  assert (H1 : contentLength s < size (content s)) by reflexivity.
  assert (H2 : size (content s) < size_max) by reflexivity.
  destruct (remainingBytes_wraps s H0 H1 H2) as (Hrem & _ & Hbuf).
  split; [exact Hrem|]. apply Hbuf; [reflexivity | discriminate].
Defined.

(** X19. When a write completes in [stProcessing] and the processor answers with
    [stShutdown], the session is recycled at once: what is still queued is
    dropped and never written. *)
Theorem shutdown_drops_queue (P : processor.t) (f : flow) :
  status (session f) = stProcessing ->
  let after :=
    processor.afterProcessing P (set_writePending false (session f)) in
  snd after = stShutdown -> free (fst after) = false ->
  let g := handleWrite P false f in
  g = recycle P (onSession (fun _ => set_status stShutdown (fst after))
                           (onSession (set_writePending false) f))
  /\ written (issued g) = written (issued f)
  /\ outboundQueue (session g) = []
  /\ free (session g) = true.
Proof.
  intros Hst after Hshut Hfree g.
  assert (Hg : g = recycle P
    (onSession (fun _ => set_status stShutdown (fst after))
               (onSession (set_writePending false) f))).
  { unfold g, handleWrite. cbn [negb orb].
    cbn [session onSession status set_writePending]. rewrite Hst.
    cbn [status_eqb].
    assert (Ha : assignStatus (processor.afterProcessing P)
                   (set_writePending false (session f))
                 = set_status stShutdown (fst after)).
    { unfold assignStatus. fold after. destruct after as [s' st'].
      cbn [fst snd] in *. now subst st'. }
    assert (Hh : onSession (assignStatus (processor.afterProcessing P))
                   (onSession (set_writePending false) f)
                 = onSession (fun _ => set_status stShutdown (fst after))
                     (onSession (set_writePending false) f)).
    { unfold onSession at 1 3. cbn [session onSession issued writesInFlight
        separateOutput canShutdown closeError]. now rewrite Ha. }
    rewrite Hh. rewrite send_guarded by (now left).
    reflexivity. }
  split; [exact Hg|]. rewrite Hg.
  match goal with
  | |- context [recycle P ?h] =>
      destruct (written_recycle P h) as (Hw & _);
      assert (Hs := session_recycle P h Hfree)
  end.
  split; [now rewrite Hw|]. rewrite Hs. split; reflexivity.
Qed.

Lemma shutdown_drops_queue_witness :
  let leaving := processor.mk (fun s => s) (fun s => (s, stContent))
                              (fun s => s) (fun s => (s, stShutdown))
                              (fun s => s) in
  let f := onSession (fun s => set_writePending true
                                 (set_status stProcessing
                                    (reply sample.E 200 "late" [] s)))
                     (newFlow false true false) in
  let g := handleWrite leaving false f in
  outboundQueue (session f) <> [] /\ written (issued g) = []
  /\ outboundQueue (session g) = [] /\ free (session g) = true.
Proof.
  intros leaving f g.
  destruct (shutdown_drops_queue leaving f eq_refl eq_refl eq_refl)
    as (_ & Hw & Hq & Hfree).
  split; [discriminate|]. split; [exact Hw|]. split; [exact Hq | exact Hfree].
Defined.

(** X20. When a header line completes the header block and the processor asks
    for a body of length zero, the message is handled in the same read
    completion: the body buffer is emptied, [handle] runs in [stProcessing]
    and no body read is issued; the input is not touched again. *)
Theorem headers_complete_no_body (E : collaborators) (P : processor.t)
    (length : Z) (f : flow) :
  status (session f) = stHeader ->
  let line := fst (buffer (session f)) in
  let rest := snd (buffer (session f)) in
  let absorbed := set_inbound (absorb E line (inbound rest)) rest in
  complete (inbound absorbed) = true ->
  let s2 := assignStatus (processor.afterHeaders P) absorbed in
  status s2 = stContent -> contentLength s2 = 0 ->
  closeAfterSend s2 = false ->
  let f2 := send P (onSession (fun _ => s2) f) in
  let g :=
    handleStart P
      (onSession (assignStatus (processor.afterProcessing P))
         (onSession (processor.handle P)
            (onSession (fun s => set_status stProcessing (set_content "" s))
                       f2))) in
  handleRead E P false length f
  = (if status_eqb (status (session g)) stError then recycle P g else g).
Proof.
  intros Hst line rest absorbed Hc s2 Hs2 Hl Hclose f2 g.
  assert (Hf2 : status (session f2) = stContent
                /\ contentLength (session f2) = 0).
  { unfold f2, send. cbn [session onSession]. rewrite Hs2.
    cbn [status_eqb negb andb].
    destruct (writePending s2); cbn [negb];
      [now split|].
    destruct (outboundQueue s2); [rewrite Hclose|]; now split. }
  destruct Hf2 as (Hst2 & Hl2).
  assert (Hsnd : snd (absorbLine E P f) = onSession (set_content "") f2).
  { unfold absorbLine. rewrite Hst. subst f2 s2 absorbed line rest.
    destruct (buffer (session f)) as [line s1]. cbn [fst snd] in *.
    cbn [inbound set_inbound] in Hc. cbn [inbound set_inbound].
    rewrite Hc. reflexivity. }
  unfold handleRead. rewrite Hst.
  cbn [status_eqb orb].
  destruct (absorbLine E P f) as [v f3]. cbn [snd] in Hsnd. subst f3.
  unfold rejectVersion, answerLine. cbn [andb].
  unfold continueRead. cbn [session onSession status set_content].
  rewrite Hst2.
  assert (Hbuf : buffer (set_content "" (session f2))
                 = ("", set_content "" (session f2))).
  { unfold buffer. cbn [status set_content]. rewrite Hst2.
    unfold remainingBytes, wrap.
    cbn [content contentLength set_content]. rewrite Hl2. reflexivity. }
  rewrite Hbuf. cbn [content set_content session onSession].
  unfold remainingBytes, wrap.
  cbn [content contentLength set_content append]. rewrite Hl2.
  reflexivity.
Qed.

Lemma headers_complete_no_body_witness :
  let f := onSession (fun s => set_input (CRLF ++ "GET /next HTTP/1.1")
                                 (set_content "old body"
                                    (set_status stHeader s)))
                     (newFlow false true false) in
  let g := handleRead sample.E sample.P false 2 f in
  content (session g) = "" /\ replies (session g) = 1
  /\ input (session g) = "GET /next HTTP/1.1"
  /\ status (session g) = stRequest
  /\ reads (issued g) = [async_read_until].
Proof.
  intros f g.
  assert (Hg := headers_complete_no_body sample.E sample.P 2 f eq_refl
                  eq_refl eq_refl eq_refl eq_refl).
  fold g in Hg. rewrite Hg. repeat split.
Defined.
